(** * The indexer's storage package and the datastore remover, in Rocq

    A shallow embedding of
    - package [storage] ([newDoc], [newResult], [Store.Exists], [Store.Store]),
    - [tools/datastore-remover] ([main]'s worker loop and [deleteBatch]),
    together with the fragments of Go's [fmt] and of the datastore client that
    these functions call.  Slices are lists (a nil slice is the empty list),
    Go's [int] is [Z], a map is a [gmap], a panic is an explicit outcome. *)

From Stdlib Require Import ZArith Lia Ascii String List HexadecimalString.
From Stdlib.Strings Require Import Byte.
From stdpp Require Import base option list gmap strings pretty.

Local Open Scope string_scope.
Local Open Scope list_scope.

(** ** Outcome of a Go call that may panic *)

Inductive outcome (A : Type) : Type :=
| Panic
| Return (a : A).
Arguments Panic {A}.
Arguments Return {A} a.

(** ** Package [encoding/hex] and go-git's [plumbing.Hash] *)

Module hex.

Definition hextable : string := "0123456789abcdef".

Definition digit (n : N) : ascii :=
  match String.get (N.to_nat n) hextable with
  | Some c => c
  | None => "?"%char
  end.

(** [EncodeToString]: for each byte [v], [hextable[v>>4]] then
    [hextable[v&0x0f]]. *)
Fixpoint EncodeToString (src : list byte) : string :=
  match src with
  | [] => ""
  | v :: src' =>
      String (digit (N.shiftr (Byte.to_N v) 4))
        (String (digit (N.land (Byte.to_N v) 15)) (EncodeToString src'))
  end.

(** [fromHexChar]: the value of one hexadecimal digit, of either case. *)
Definition fromHexChar (c : ascii) : option N :=
  let n := N_of_ascii c in
  if ((48 <=? n) && (n <=? 57))%N then Some (n - 48)%N
  else if ((97 <=? n) && (n <=? 102))%N then Some (n - 97 + 10)%N
  else if ((65 <=? n) && (n <=? 70))%N then Some (n - 65 + 10)%N
  else None.

(** [DecodeString]: two digits per byte, [(a << 4) | b]; an odd length or a
    character that is no digit is an error. *)
Fixpoint DecodeString (s : string) : option (list byte) :=
  match s with
  | EmptyString => Some []
  | String _ EmptyString => None
  | String p (String q s') =>
      a ← fromHexChar p;
      b ← fromHexChar q;
      v ← Byte.of_N (N.lor (N.shiftl a 4) b);
      rest ← DecodeString s';
      Some (v :: rest)
  end.

End hex.

(** A string in which the character [c] does not occur. *)
Fixpoint lacks (c : ascii) (s : string) : Prop :=
  match s with
  | EmptyString => True
  | String c' s' => c' <> c /\ lacks c s'
  end.

Module plumbing.

(** [type Hash [20]byte]; a well-formed hash has 20 bytes. *)
Definition Hash : Type := list byte.

(** [func (h Hash) String() string { return hex.EncodeToString(h[:]) }] *)
Definition Hash_String (h : Hash) : string := hex.EncodeToString h.

End plumbing.

(** ** The fragment of package [fmt] used to build key names *)

Module fmt.

(** [const ldigits = "0123456789abcdefx"], indexed by a nibble. *)
Definition ldigits : string := "0123456789abcdefx".

Definition digit (n : N) : ascii :=
  match String.get (N.to_nat n) ldigits with
  | Some c => c
  | None => "?"%char
  end.

(** [fmtSbx] with lower-case digits and no flags: two digits per byte,
    [digits[c>>4]] then [digits[c&0xF]]. *)
Fixpoint fmtSbx (b : list byte) : string :=
  match b with
  | [] => ""
  | c :: b' =>
      String (digit (N.shiftr (Byte.to_N c) 4))
        (String (digit (N.land (Byte.to_N c) 15)) (fmtSbx b'))
  end.

(** [fmtSx] is [fmtSbx] on the bytes of the string, [fmtBx] on the slice. *)
Definition fmtSx (s : string) : string := fmtSbx (list_byte_of_string s).
Definition fmtBx (b : list byte) : string := fmtSbx b.

(** The operands this package passes to [Sprintf]: a [string], a [[]byte],
    an [int], and a [plumbing.Hash] (an array type with a [String] method,
    so a [Stringer]). *)
Inductive operand : Type :=
| AString (s : string)
| ABytes (b : list byte)
| AInt (z : Z)
| AHash (h : plumbing.Hash).

(** [fmtString], [fmtBytes], [fmtInteger] for the verbs [%s], [%x], [%d]
    without flags.  [None] leaves the modelled fragment. *)
Definition fmtString (s : string) (verb : ascii) : option string :=
  if (verb =? "s")%char then Some s
  else if (verb =? "x")%char then Some (fmtSx s)
  else None.

Definition fmtBytes (b : list byte) (verb : ascii) : option string :=
  if (verb =? "s")%char then Some (string_of_list_byte b)
  else if (verb =? "x")%char then Some (fmtBx b)
  else None.

Definition fmtInteger (z : Z) (verb : ascii) : option string :=
  if (verb =? "d")%char then Some (pretty z) else None.

(** [handleMethods]: for the verbs that are valid for strings ([%s], [%x]
    here) an operand that is a [Stringer] is replaced by its [String()] text
    and that text is formatted as a string. *)
Definition handleMethods (h : plumbing.Hash) (verb : ascii) : option string :=
  if ((verb =? "s") || (verb =? "x"))%char
  then fmtString (plumbing.Hash_String h) verb
  else None.

(** [printArg]: the type switch picks [string], [[]byte] and [int] directly;
    every other type, [plumbing.Hash] among them, goes to [handleMethods]. *)
Definition printArg (a : operand) (verb : ascii) : option string :=
  match a with
  | AString s => fmtString s verb
  | ABytes b => fmtBytes b verb
  | AInt z => fmtInteger z verb
  | AHash h => handleMethods h verb
  end.

(** [doPrintf] for formats made of literal text, [%%] and flag-free verbs.
    A missing or an extra operand leaves the fragment. *)
Fixpoint doPrintf (format : string) (a : list operand) : option string :=
  match format with
  | EmptyString => match a with [] => Some "" | _ :: _ => None end
  | String c rest =>
      if (c =? "%")%char then
        match rest with
        | EmptyString => None
        | String verb rest' =>
            if (verb =? "%")%char then String "%" <$> doPrintf rest' a
            else
              match a with
              | [] => None
              | x :: a' =>
                  s ← printArg x verb;
                  r ← doPrintf rest' a';
                  Some (s +:+ r)
              end
        end
      else String c <$> doPrintf rest a
  end.

(** [Sprintf]; outside the fragment the text is a fixed marker, which no
    call of the package reaches (see [storage.docKey_text] and the like). *)
Definition Sprintf (format : string) (a : list operand) : string :=
  match doPrintf format a with
  | Some s => s
  | None => "%!(BADFORMAT)"
  end.

End fmt.

(** ** The datastore client, as the package uses it *)

Module datastore.

(** [type Key struct { Kind string; Name string; Parent *Key; ... }];
    [NameKey(kind, name, parent)] builds one, [None] is the nil parent. *)
#[warnings="-register-all"] Inductive Key : Type :=
| NameKey (kind name : string) (parent : option Key).

Definition Kind (k : Key) : string := match k with NameKey kd _ _ => kd end.
Definition Name (k : Key) : string := match k with NameKey _ n _ => n end.
Definition Parent (k : Key) : option Key := match k with NameKey _ _ p => p end.

(** The chain of (kind, name) pairs from a key up to its root. *)
Fixpoint key_path (k : Key) : list (string * string) :=
  match k with
  | NameKey kd n p =>
      (kd, n) :: match p with Some k' => key_path k' | None => [] end
  end.

Fixpoint path_key (l : list (string * string)) : option Key :=
  match l with
  | [] => None
  | (kd, n) :: l' => Some (NameKey kd n (path_key l'))
  end.

Fixpoint path_key_path (k : Key) : path_key (key_path k) = Some k.
Proof.
  destruct k as [kd n [k'|]]; simpl.
  - now rewrite (path_key_path k').
  - reflexivity.
Qed.

Lemma key_path_inj (k1 k2 : Key) : key_path k1 = key_path k2 -> k1 = k2.
Proof.
  intros H. apply (f_equal path_key) in H.
  rewrite !path_key_path in H. congruence.
Qed.

#[export] Instance Key_eq_dec : EqDecision Key.
Proof.
  intros k1 k2. destruct (decide (key_path k1 = key_path k2)) as [H|H].
  - left. now apply key_path_inj.
  - right. congruence.
Defined.

#[export] Instance Key_countable : Countable Key :=
  inj_countable key_path path_key path_key_path.

(** Go errors reaching the package: the sentinel [ErrNoSuchEntity] and any
    other error value, told apart with [==]. *)
Inductive error : Type :=
| ErrNoSuchEntity
| ErrOther (msg : string).

#[export] Instance error_eq_dec : EqDecision error.
Proof. solve_decision. Defined.

(** What the backing service answers to one call.  The package cannot
    observe more of the service than these answers:
    - [put_fault keys] is the error of a [tx.Put]/[tx.PutMulti] on [keys],
    - [commit_fault] the error of the commit that ends a transaction,
    - [get_fault key] an error of [Get] other than the missing entity. *)
Record Faults : Type := {
  put_fault : list Key -> option error;
  commit_fault : option error;
  get_fault : Key -> option error
}.

Definition no_faults : Faults :=
  {| put_fault := fun _ => None; commit_fault := None; get_fault := fun _ => None |}.

Section client.
Context {E : Type}.

(** The client handle: the entities of the store it talks to and, as a
    record of the round trips, the keys it has looked up and the mutation
    lists it has committed. *)
Record Client : Type := {
  entities : gmap Key E;
  lookups : list Key;
  commits : list (list (Key * E))
}.

(** A transaction buffers its mutations until the commit. *)
Record Transaction : Type := { mutations : list (Key * E) }.

Definition begin : Transaction := {| mutations := [] |}.

(** [tx.Put(key, src)]: one upsert appended to the buffer, or an error. *)
Definition Put (env : Faults) (key : Key) (src : E) (tx : Transaction)
  : option error * Transaction :=
  match put_fault env [key] with
  | Some err => (Some err, tx)
  | None => (None, {| mutations := mutations tx ++ [(key, src)] |})
  end.

(** [tx.PutMulti(keys, src)]: the slices must have one length; an empty
    call buffers nothing. *)
Definition PutMulti (env : Faults) (keys : list Key) (src : list E)
    (tx : Transaction) : option error * Transaction :=
  match put_fault env keys with
  | Some err => (Some err, tx)
  | None =>
      if decide (length keys = length src)
      then (None, {| mutations := mutations tx ++ zip keys src |})
      else (Some (ErrOther "datastore: key and src slices have different length"), tx)
  end.

(** The commit applies the buffered upserts in order. *)
Definition apply_mutations (muts : list (Key * E)) (m : gmap Key E) : gmap Key E :=
  foldl (fun m' kv => <[kv.1 := kv.2]> m') m muts.

(** The last value a mutation list writes under [key], if it writes any. *)
Definition last_write (key : Key) (muts : list (Key * E)) : option E :=
  foldl (fun acc kv => if decide (kv.1 = key) then Some kv.2 else acc) None muts.

(** [RunInTransaction(ctx, f)]: runs [f] on a fresh transaction; an error
    of [f] rolls back and is returned; otherwise the buffer is committed,
    all of it or, when the commit fails, none of it.  (The client's
    retries after a conflicting commit re-run the same [f]; the last
    attempt is the one modelled.) *)
Definition RunInTransaction (env : Faults)
    (f : Transaction -> option error * Transaction) (c : Client)
  : Client * option error :=
  match f begin with
  | (Some err, _) => (c, Some err)
  | (None, tx) =>
      match commit_fault env with
      | Some err => (c, Some err)
      | None =>
          ({| entities := apply_mutations (mutations tx) (entities c);
              lookups := lookups c;
              commits := commits c ++ [mutations tx] |}, None)
      end
  end.

(** [Get(ctx, key, dst)]: one lookup; the error is [ErrNoSuchEntity] when
    the store holds nothing under [key]. *)
Definition Get (env : Faults) (key : Key) (c : Client) : Client * option error :=
  let c' := {| entities := entities c; lookups := lookups c ++ [key];
               commits := commits c |} in
  match get_fault env key with
  | Some err => (c', Some err)
  | None =>
      match entities c !! key with
      | Some _ => (c', None)
      | None => (c', Some ErrNoSuchEntity)
      end
  end.

End client.
Arguments Client : clear implicits.
Arguments Transaction : clear implicits.

End datastore.

(** ** The types the package takes from the earlier stages *)

Module preparation.

(** [preparation.Result], the fields [newDoc] and [Store] read.  [When] is a
    [time.Time], kept as a number. *)
Record Result : Type := {
  Name : string;
  BaseCPE : string;
  Version : string;
  Commit : plumbing.Hash;
  CommitTag : string;
  When : Z;
  Type_ : string;
  Addr : string;
  FileExts : list string
}.

End preparation.

Module processing.

(** [processing.FileResult], the fields [newResult] reads. *)
Record FileResult : Type := {
  Path : string;
  Hash : list byte
}.

(** [processing.TreeNode], the fields [Store] and [newDoc] read; the counts
    are Go [int]s. *)
Record TreeNode : Type := {
  NodeHash : list byte;
  ChildHashes : list (list byte);
  Height : Z;
  FilesContained : Z
}.

End processing.

(** ** Package [storage] *)

Module storage.

Import datastore.

Definition docKind : string := "RepoIndex".
Definition resultKind : string := "RepoIndexBucket".
Definition treeKind : string := "RepoIndexResultTree".
(** Address-HashType-CommitHash *)
Definition docKeyFmt : string := "%s-%s-%x".
(** BucketHash-HashType *)
Definition resultKeyFmt : string := "%x-%s".
(** NodeHash-HashType-FilesContained-Height *)
Definition treeKeyFmt : string := "%x-%s-%d-%d".

(** [document] represents a single repository entry in datastore. *)
Record document : Type := {
  Name : string;
  BaseCPE : string;
  Version : string;
  Commit : list byte;
  Tag : string;
  When : Z;
  RepoType : string;
  RepoAddr : string;
  FileExts : list string;
  FileHashType : string
}.

Record result : Type := {
  BucketHash : list byte;
  Path : list string;
  Hash : list (list byte)
}.

(** What the client is asked to store: one of the three record kinds. *)
Inductive entity : Type :=
| EDoc (d : document)
| EResult (r : result)
| ETree (n : processing.TreeNode).

(** [newResult]: the loop appends each path and hash in order. *)
Fixpoint newResult_loop (results : list processing.FileResult)
    (paths : list string) (hashes : list (list byte))
  : list string * list (list byte) :=
  match results with
  | [] => (paths, hashes)
  | r :: results' =>
      newResult_loop results' (paths ++ [processing.Path r])
        (hashes ++ [processing.Hash r])
  end.

Definition newResult (results : list processing.FileResult) (bucketHash : list byte)
  : result :=
  let '(paths, hashes) := newResult_loop results [] [] in
  {| Path := paths; Hash := hashes; BucketHash := bucketHash |}.

(** The loop of [newDoc], at index [i] with [vs] still to visit:
    [len(bucketResults) == 0] is tested on the outer slice, then
    [baseTreeLayer[i]] is indexed, which panics out of range. *)
Fixpoint newDoc_loop (bucketResults : list (list processing.FileResult))
    (baseTreeLayer : list processing.TreeNode)
    (i : nat) (vs : list (list processing.FileResult)) (result : list result)
  : outcome (list storage.result) :=
  match vs with
  | [] => Return result
  | v :: vs' =>
      if decide (length bucketResults = 0)
      then newDoc_loop bucketResults baseTreeLayer (S i) vs' result
      else
        match baseTreeLayer !! i with
        | None => Panic
        | Some node =>
            newDoc_loop bucketResults baseTreeLayer (S i) vs'
              (result ++ [newResult v (processing.NodeHash node)])
        end
  end.

Definition newDoc (repoInfo : preparation.Result) (hashType : string)
    (bucketResults : list (list processing.FileResult))
    (baseTreeLayer : list processing.TreeNode)
  : outcome (document * list result) :=
  let doc := {|
    Name := preparation.Name repoInfo;
    BaseCPE := preparation.BaseCPE repoInfo;
    Version := preparation.Version repoInfo;
    Commit := preparation.Commit repoInfo;
    Tag := preparation.CommitTag repoInfo;
    When := preparation.When repoInfo;
    RepoType := preparation.Type_ repoInfo;
    RepoAddr := preparation.Addr repoInfo;
    FileExts := preparation.FileExts repoInfo;
    FileHashType := hashType |} in
  match newDoc_loop bucketResults baseTreeLayer 0 bucketResults [] with
  | Panic => Panic
  | Return result => Return (doc, result)
  end.

(** [Store] provides the functionality to check for existing documents in
    datastore and add new ones: the client and the session's [sync.Map]. *)
Record Store : Type := {
  dsCl : Client entity;
  cache : gmap string bool
}.

(** [Exists] checks whether a name/hash pair already exists in datastore.
    The commit operand of the three [Sprintf] calls is [hash], a
    [plumbing.Hash]. *)
Definition Store_Exists (env : Faults) (s : Store) (addr hashType : string)
    (hash : plumbing.Hash) : Store * (bool * option error) :=
  let name :=
    fmt.Sprintf docKeyFmt [fmt.AString addr; fmt.AString hashType; fmt.AHash hash] in
  match cache s !! name with
  | Some _ => (s, (true, None))
  | None =>
      let key := NameKey docKind name None in
      let '(cl, r) := Get env key (dsCl s) in
      match r with
      | Some err =>
          if decide (err = ErrNoSuchEntity)
          then ({| dsCl := cl; cache := cache s |}, (false, None))
          else ({| dsCl := cl; cache := cache s |}, (false, Some err))
      | None =>
          ({| dsCl := cl; cache := <[name := true]> (cache s) |}, (true, None))
      end
  end.

(** The key names and keys [Store] builds: [docKey], and [resultKey] and
    [treeKey] with [docKey] as their parent. *)
Definition docName (addr hashType : string) (commit : list byte) : string :=
  fmt.Sprintf docKeyFmt [fmt.AString addr; fmt.AString hashType; fmt.ABytes commit].

Definition Store_docKey (repoInfo : preparation.Result) (hashType : string) : Key :=
  NameKey docKind
    (docName (preparation.Addr repoInfo) hashType (preparation.Commit repoInfo))
    None.

Definition resultKey (docKey : Key) (hashType : string) (r : result) : Key :=
  NameKey resultKind
    (fmt.Sprintf resultKeyFmt [fmt.ABytes (BucketHash r); fmt.AString hashType])
    (Some docKey).

Definition treeKey (docKey : Key) (hashType : string) (node : processing.TreeNode)
  : Key :=
  NameKey treeKind
    (fmt.Sprintf treeKeyFmt
       [fmt.ABytes (processing.NodeHash node); fmt.AString hashType;
        fmt.AInt (processing.FilesContained node);
        fmt.AInt (processing.Height node)])
    (Some docKey).

(** The first loop of the transaction: one [tx.Put] per result. *)
Fixpoint Store_results (env : Faults) (docKey : Key) (hashType : string)
    (results : list result) (tx : Transaction entity)
  : option error * Transaction entity :=
  match results with
  | [] => (None, tx)
  | r :: results' =>
      match Put env (resultKey docKey hashType r) (EResult r) tx with
      | (Some err, tx') => (Some err, tx')
      | (None, tx') => Store_results env docKey hashType results' tx'
      end
  end.

(** The inner loop over one layer: nodes without files are skipped, the
    others are appended to [putMultiKeys] and [putMultiNodes]. *)
Fixpoint Store_layer (docKey : Key) (hashType : string)
    (layer : list processing.TreeNode)
    (putMultiKeys : list Key) (putMultiNodes : list processing.TreeNode)
  : list Key * list processing.TreeNode :=
  match layer with
  | [] => (putMultiKeys, putMultiNodes)
  | node :: layer' =>
      if decide (processing.FilesContained node = 0%Z)
      then Store_layer docKey hashType layer' putMultiKeys putMultiNodes
      else
        Store_layer docKey hashType layer'
          (putMultiKeys ++ [treeKey docKey hashType node]) (putMultiNodes ++ [node])
  end.

(** The second loop: one [tx.PutMulti] per layer. *)
Fixpoint Store_layers (env : Faults) (docKey : Key) (hashType : string)
    (treeNodes : list (list processing.TreeNode)) (tx : Transaction entity)
  : option error * Transaction entity :=
  match treeNodes with
  | [] => (None, tx)
  | layer :: treeNodes' =>
      let '(putMultiKeys, putMultiNodes) := Store_layer docKey hashType layer [] [] in
      match PutMulti env putMultiKeys (ETree <$> putMultiNodes) tx with
      | (Some err, tx') => (Some err, tx')
      | (None, tx') => Store_layers env docKey hashType treeNodes' tx'
      end
  end.

(** The function handed to [RunInTransaction]. *)
Definition Store_tx (env : Faults) (docKey : Key) (doc : document)
    (results : list result) (hashType : string)
    (treeNodes : list (list processing.TreeNode)) (tx : Transaction entity)
  : option error * Transaction entity :=
  match Put env docKey (EDoc doc) tx with
  | (Some err, tx') => (Some err, tx')
  | (None, tx') =>
      match Store_results env docKey hashType results tx' with
      | (Some err, tx'') => (Some err, tx'')
      | (None, tx'') => Store_layers env docKey hashType treeNodes tx''
      end
  end.

(** [Store] stores a new entry in datastore.  [treeNodes[0]] panics on an
    empty slice; the session's cache is not touched. *)
Definition Store_Store (env : Faults) (s : Store) (repoInfo : preparation.Result)
    (hashType : string) (bucketResults : list (list processing.FileResult))
    (treeNodes : list (list processing.TreeNode))
  : outcome (Store * option error) :=
  let docKey := Store_docKey repoInfo hashType in
  match treeNodes !! 0%nat with
  | None => Panic
  | Some baseTreeLayer =>
      match newDoc repoInfo hashType bucketResults baseTreeLayer with
      | Panic => Panic
      | Return (doc, results) =>
          let '(cl, err) :=
            RunInTransaction env
              (Store_tx env docKey doc results hashType treeNodes) (dsCl s) in
          Return ({| dsCl := cl; cache := cache s |}, err)
      end
  end.

(** *** Descriptions used in the statements below *)

(** The document of a repository, and the results of its bucket groups paired
    with the height-0 nodes. *)
Definition repo_document (repoInfo : preparation.Result) (hashType : string)
  : document :=
  {| Name := preparation.Name repoInfo;
     BaseCPE := preparation.BaseCPE repoInfo;
     Version := preparation.Version repoInfo;
     Commit := preparation.Commit repoInfo;
     Tag := preparation.CommitTag repoInfo;
     When := preparation.When repoInfo;
     RepoType := preparation.Type_ repoInfo;
     RepoAddr := preparation.Addr repoInfo;
     FileExts := preparation.FileExts repoInfo;
     FileHashType := hashType |}.

Definition group_results (bucketResults : list (list processing.FileResult))
    (baseTreeLayer : list processing.TreeNode) : list result :=
  zip_with (fun v node => newResult v (processing.NodeHash node))
    bucketResults baseTreeLayer.

(** The calls the transaction makes when none fails, as the key lists they
    carry: the document, one [Put] per result, one [PutMulti] per layer. *)
Definition with_files (node : processing.TreeNode) : Prop :=
  processing.FilesContained node <> 0%Z.

#[export] Instance with_files_dec node : Decision (with_files node).
Proof. unfold with_files. apply _. Defined.

Definition Store_calls (docKey : Key) (hashType : string) (results : list result)
    (treeNodes : list (list processing.TreeNode)) : list (list Key) :=
  [docKey]
    :: ((fun r : result => [resultKey docKey hashType r]) <$> results)
    ++ ((fun layer : list processing.TreeNode =>
           treeKey docKey hashType <$> filter with_files layer)
          <$> treeNodes).

(** The records of a whole transaction, in the order they are buffered. *)
Definition result_records (docKey : Key) (hashType : string) (results : list result)
  : list (Key * entity) :=
  (fun r : result => (resultKey docKey hashType r, EResult r)) <$> results.

Definition layer_records (docKey : Key) (hashType : string)
    (treeNodes : list (list processing.TreeNode)) : list (Key * entity) :=
  treeNodes ≫= fun layer : list processing.TreeNode =>
    (fun node : processing.TreeNode => (treeKey docKey hashType node, ETree node))
      <$> filter with_files layer.

Definition Store_records (docKey : Key) (doc : document) (hashType : string)
    (results : list result) (treeNodes : list (list processing.TreeNode))
  : list (Key * entity) :=
  (docKey, EDoc doc)
    :: result_records docKey hashType results
    ++ layer_records docKey hashType treeNodes.

(** The state a committed transaction leaves. *)
Definition committed (s : Store) (records : list (Key * entity)) : Store :=
  {| dsCl := {| entities := apply_mutations records (entities (dsCl s));
                lookups := lookups (dsCl s);
                commits := commits (dsCl s) ++ [records] |};
     cache := cache s |}.

(** The error of the first call that fails, if any does. *)
Fixpoint first_fault (put_fault : list Key -> option error)
    (calls : list (list Key)) : option error :=
  match calls with
  | [] => None
  | keys :: calls' =>
      match put_fault keys with
      | Some err => Some err
      | None => first_fault put_fault calls'
      end
  end.

(** The textual key scheme: the document key is
    [<address>-<hashType>-<commit hex>] without a parent; a result key is
    [<bucketHash hex>-<hashType>] and a tree key
    [<nodeHash hex>-<hashType>-<filesContained>-<height>], both under the
    document key. *)
Definition key_scheme (addr hashType : string) (commit : list byte)
    (kv : Key * entity) : Prop :=
  let docKey :=
    NameKey "RepoIndex"
      (addr +:+ "-" +:+ hashType +:+ "-" +:+ hex.EncodeToString commit) None in
  match kv.2 with
  | EDoc _ => kv.1 = docKey
  | EResult r =>
      kv.1 = NameKey "RepoIndexBucket"
               (hex.EncodeToString (BucketHash r) +:+ "-" +:+ hashType)
               (Some docKey)
  | ETree node =>
      kv.1 = NameKey "RepoIndexResultTree"
               (hex.EncodeToString (processing.NodeHash node) +:+ "-" +:+ hashType
                  +:+ "-" +:+ pretty (processing.FilesContained node)
                  +:+ "-" +:+ pretty (processing.Height node))
               (Some docKey)
  end.

End storage.

(** ** Sample inputs, used to run the definitions *)

Module examples.

Import datastore storage.

Definition commit : plumbing.Hash := repeat Byte.xab 20.

Definition repo : preparation.Result :=
  {| preparation.Name := "zlib";
     preparation.BaseCPE := "cpe:2.3:a:zlib:zlib";
     preparation.Version := "1.2.13";
     preparation.Commit := commit;
     preparation.CommitTag := "v1.2.13";
     preparation.When := 1665619200;
     preparation.Type_ := "GIT";
     preparation.Addr := "https://github.com/madler/zlib";
     preparation.FileExts := [".c"; ".h"] |}.

Definition file1 : processing.FileResult :=
  {| processing.Path := "adler32.c"; processing.Hash := [Byte.x07] |}.

Definition node (hash : byte) (height files : Z) : processing.TreeNode :=
  {| processing.NodeHash := [hash]; processing.ChildHashes := [];
     processing.Height := height; processing.FilesContained := files |}.

Definition node1 : processing.TreeNode := node Byte.x01 0 1.
Definition node2 : processing.TreeNode := node Byte.x02 0 1.
Definition node0 : processing.TreeNode := node Byte.x00 0 0.

Definition empty_store : Store :=
  {| dsCl := {| entities := ∅; lookups := []; commits := [] |}; cache := ∅ |}.

Definition docKey : Key := Store_docKey repo "md5".

(** The state after storing [file1] under [node1] in the empty store. *)
Definition records1 : list (Key * entity) :=
  Store_records docKey (repo_document repo "md5") "md5"
    (group_results [[file1]] [node1]) [[node1]].

Definition stored1 : Store := committed empty_store records1.

(** A second call for the same triple with another height-0 node. *)
Definition stored12 : Store :=
  committed stored1
    (Store_records docKey (repo_document repo "md5") "md5"
       (group_results [[file1]] [node2]) [[node2]]).

(** The same with a second height-0 node that contains no files. *)
Definition layers2 : list (list processing.TreeNode) := [[node1; node0]].

Definition stored2 : Store :=
  committed empty_store
    (Store_records docKey (repo_document repo "md5") "md5"
       (group_results [[file1]] [node1; node0]) layers2).

(** A store that holds a document under the name [Exists] looks up for
    [repo], and the session after [Exists] has found it. *)
Definition looked_up_name : string :=
  fmt.Sprintf docKeyFmt
    [fmt.AString (preparation.Addr repo); fmt.AString "md5";
     fmt.AHash (preparation.Commit repo)].

Definition indexed_store : Store :=
  {| dsCl := {| entities :=
                  {[ NameKey docKind looked_up_name None
                       := EDoc (repo_document repo "md5") ]};
                lookups := []; commits := [] |};
     cache := ∅ |}.

Definition cached_store : Store :=
  {| dsCl := {| entities := entities (dsCl indexed_store);
                lookups := [NameKey docKind looked_up_name None];
                commits := [] |};
     cache := {[ looked_up_name := true ]} |}.

(** Two groups, one of them empty, under two height-0 nodes with one hash. *)
Definition same_hash_results : list result :=
  group_results [[file1]; []] [node1; node1].

Definition stored_same_hash : Store :=
  committed empty_store
    (Store_records docKey (repo_document repo "md5") "md5" same_hash_results
       [[node1; node1]]).

End examples.

(** ** [tools/datastore-remover] *)

Module remover.

Import datastore.

(** Go's [int] and [int64] are 64 bits wide and wrap around. *)
Definition wrap64 (z : Z) : Z := ((z + 2 ^ 63) mod 2 ^ 64 - 2 ^ 63)%Z.

(** [strconv.FormatInt(i, 16)]: a sign and lower-case hexadecimal digits. *)
Definition FormatInt16 (i : Z) : string :=
  HexadecimalString.NilZero.string_of_int (Z.to_hex_int i).

(** The flags [batch_size] and [wait_ms]. *)
Record Flags : Type := {
  batchSize : Z;
  waitTimeMS : Z
}.

(** [flag.Int("batch_size", 500, ...)], [flag.Int("wait_ms", 500, ...)] *)
Definition default_flags : Flags := {| batchSize := 500; waitTimeMS := 500 |}.

(** The calls a worker makes that reach the store or the clock. *)
Inductive call : Type :=
| DeleteMulti (keys : list Key)
| Sleep (nanoseconds : Z).

(** What a worker acts on: the [commit] index of the targeted kind (each
    entity's key with its [commit] value, in index order), the counter
    [total], the lines logged and the calls made so far. *)
Record World : Type := {
  index : list (Key * string);
  total : Z;
  logged : list Z;
  calls : list call
}.

(** A run ends normally, in [log.Fatalf] or in a runtime panic. *)
Inductive run : Type :=
| Done (w : World)
| Fatal
| Panicked.

(** The loop of [main]: [for i := 0; i < 16; i++]. *)
Definition workers : list Z := seqZ 0 16.

Definition iStr (i : Z) : string := FormatInt16 i.

(** [FilterField("commit", ">", iStr)]: values compare as byte strings. *)
Definition selects (i : Z) (commit : string) : bool := String.ltb (iStr i) commit.

(** [client.Run(ctx, NewQuery(kind).Order("commit").FilterField("commit", ">",
    iStr).KeysOnly())]: the keys of the selected entities, in index order;
    [Next] yields them one by one and then [iterator.Done] (an [inr] item is
    any other error of [Next]). *)
Definition Run (i : Z) (w : World) : list (Key + error) :=
  (fun e => inl e.1) <$> filter (fun e => selects i e.2 = true) (index w).

(** The flag [wait_ms] as a [time.Duration] times [time.Millisecond], in
    nanoseconds. *)
Definition sleep_time (cfg : Flags) : Z :=
  wrap64 (wrap64 (waitTimeMS cfg) * 1000000).

(** [deleteBatch]: [DeleteMulti], the counter, the progress line every
    [batchSize*10] keys (a zero divisor panics), then the sleep. *)
Definition deleteBatch (cfg : Flags) (delete_fault : list Key -> option error)
    (keys : list Key) (w : World) : run :=
  match delete_fault keys with
  | Some _ => Fatal
  | None =>
      let index' := filter (fun e => e.1 ∉ keys) (index w) in
      let total' := wrap64 (total w + Z.of_nat (length keys)) in
      let localTotal := total' in
      let divisor := wrap64 (batchSize cfg * 10) in
      if decide (divisor = 0%Z) then Panicked
      else
        let logged' :=
          if decide (Z.rem localTotal divisor = 0%Z)
          then (logged w ++ [localTotal])%list else logged w in
        Done {| index := index'; total := total'; logged := logged';
                calls := calls w ++ [DeleteMulti keys; Sleep (sleep_time cfg)] |}
  end.

(** The body of one worker's goroutine, over the items its iterator yields. *)
Fixpoint worker_loop (cfg : Flags) (delete_fault : list Key -> option error)
    (it : list (Key + error)) (batch : list Key) (w : World) : run :=
  match it with
  | [] =>
      if decide (0 < length batch)%nat
      then deleteBatch cfg delete_fault batch w
      else Done w
  | inr _ :: _ => Fatal
  | inl key :: it' =>
      let batch' := batch ++ [key] in
      if decide (batchSize cfg <= Z.of_nat (length batch'))%Z
      then
        match deleteBatch cfg delete_fault batch' w with
        | Done w' => worker_loop cfg delete_fault it' [] w'
        | Fatal => Fatal
        | Panicked => Panicked
        end
      else worker_loop cfg delete_fault it' batch' w
  end.

Definition worker (cfg : Flags) (delete_fault : list Key -> option error)
    (i : Z) (w : World) : run :=
  worker_loop cfg delete_fault (Run i w) [] w.

(** *** Descriptions used in the statements below *)

(** The keys worker [i] scans, and the calls that deleting a list of batches
    makes: each [DeleteMulti] followed by the sleep. *)
Definition scanned (i : Z) (w : World) : list Key :=
  (filter (fun e => selects i e.2 = true) (index w)).*1.

Definition batch_calls (cfg : Flags) (batches : list (list Key)) : list call :=
  batches ≫= fun batch : list Key => [DeleteMulti batch; Sleep (sleep_time cfg)].

(** Sample inputs: an index of five entities. *)
Definition sample_key (name : string) : Key := NameKey "RepoIndex" name None.

Definition sample_world : World :=
  {| index := [(sample_key "a", "0abc"); (sample_key "b", "1f");
               (sample_key "c", "5a"); (sample_key "d", "ff");
               (sample_key "e", "zz")];
     total := 0; logged := []; calls := [] |}.

Definition no_delete_fault (keys : list Key) : option error := None.

(** An index with an entity whose [commit] is the text "0". *)
Definition sample_world0 : World :=
  {| index := [(sample_key "z", "0"); (sample_key "b", "1f")];
     total := 0; logged := []; calls := [] |}.

End remover.

(** ** The scanner command: [printResults], [scanSbomFile], [scanDebianDocker] *)

Module strings.

(** [strings.Join(elems, sep)] *)
Fixpoint Join (elems : list string) (sep : string) : string :=
  match elems with
  | [] => ""
  | [e] => e
  | e :: elems' => e +:+ sep +:+ Join elems' sep
  end.

(** [strings.Split(s, sep)] for a separator that is not empty: the text is
    cut at each occurrence of [sep] found from the left, occurrences not
    overlapping.  [skip] counts the characters of a found separator still to
    pass over, [field] is the field read so far. *)
Fixpoint Split_from (sep : string) (skip : nat) (field : string) (s : string)
  : list string :=
  match s with
  | EmptyString => [field]
  | String c s' =>
      match skip with
      | S skip' => Split_from sep skip' field s'
      | O =>
          if String.prefix sep s
          then field :: Split_from sep (String.length sep - 1) "" s'
          else Split_from sep 0 (field +:+ String c "") s'
      end
  end.

Definition Split (s sep : string) : list string := Split_from sep 0 "" s.

End strings.

Module scanner.

(** [osv.MinimalVulnerability], [osv.MinimalResponse]: the fields read. *)
Record MinimalVulnerability : Type := { ID : string }.
Record MinimalResponse : Type := { Vulns : list MinimalVulnerability }.

(** [sbom.Identifier]: the field read. *)
Record Identifier : Type := { PURL : string }.

(** An error value, with what [errors.Is(err, sbom.InvalidFormat)] answers
    for it. *)
Record error : Type := {
  is_InvalidFormat : bool;
  message : string
}.

(** A run of the command ends normally, in [log.Fatalf], or in a panic. *)
Inductive ending (A : Type) : Type :=
| Returns (a : A)
| Fatal
| Panics.
Arguments Returns {A} a.
Arguments Fatal {A}.
Arguments Panics {A}.

Section commands.

(** What the packages [osv] and [sbom] and the library supply: the type of
    a query with its constructor from a package URL, the text [%v] prints for
    a query, the base of a vulnerability's URL, [strings.TrimSpace], and the
    state of an open file. *)
Variable Query : Type.
Variable MakePURLRequest : string -> Query.
Variable show_query : Query -> string.
Variable BaseVulnerabilityURL : string.
Variable TrimSpace : string -> string.
Variable File : Type.

(** An SBOM provider: [GetPackages] reads from the file, calls the callback
    on the identifiers it finds, in order, and returns an error or nil. *)
Record Provider : Type := {
  Name : string;
  GetPackages : File -> File * list Identifier * option error
}.

(** The inner loop of [printResults]: the URL of each vulnerability. *)
Fixpoint printResults_urls (vulns : list MinimalVulnerability) (urls : list string)
  : list string :=
  match vulns with
  | [] => urls
  | vuln :: vulns' => printResults_urls vulns' (urls ++ [BaseVulnerabilityURL +:+ ID vuln])
  end.

(** The text of the line [log.Printf("%v is vulnerable to %s", ...)]. *)
Definition vulnerable_line (query : Query) (urls : list string) : string :=
  show_query query +:+ " is vulnerable to " +:+ strings.Join urls ", ".

(** [printResults], at index [i] with [queries] still to visit; the lines
    logged so far are returned also when [resp.Results[i]] panics. *)
Fixpoint printResults_loop (Results : list MinimalResponse) (i : nat)
    (queries : list Query) (lines : list string) : list string * outcome unit :=
  match queries with
  | [] => (lines, Return tt)
  | query :: queries' =>
      match Results !! i with
      | None => (lines, Panic)
      | Some result =>
          if decide (length (Vulns result) = 0)
          then printResults_loop Results (S i) queries' lines
          else
            let urls := printResults_urls (Vulns result) [] in
            printResults_loop Results (S i) queries'
              (lines ++ [vulnerable_line query urls])
      end
  end.

Definition printResults (Queries : list Query) (Results : list MinimalResponse)
  : list string * outcome unit :=
  printResults_loop Results 0 Queries [].

(** [scanSbomFile], after [os.Open] has succeeded: the providers are tried in
    order on the same file; the callback appends a query per identifier. *)
Fixpoint scanSbomFile_loop (providers : list Provider) (file : File)
    (Queries : list Query) (lines : list string)
  : list Query * list string * option error :=
  match providers with
  | [] => (Queries, lines, None)
  | provider :: providers' =>
      let '(file', ids, err) := GetPackages provider file in
      let Queries' := Queries ++ ((fun id => MakePURLRequest (PURL id)) <$> ids) in
      match err with
      | None => (Queries', lines ++ ["Scanned " +:+ Name provider +:+ " SBOM"], None)
      | Some e =>
          if is_InvalidFormat e
          then scanSbomFile_loop providers' file' Queries' lines
          else (Queries', lines, Some e)
      end
  end.

(** [scanSbomFile]; [opened] is what [os.Open(path)] returns. *)
Definition scanSbomFile (providers : list Provider) (opened : error + File)
    (Queries : list Query) (path : string)
  : list Query * list string * option error :=
  let lines := ["Scanning file " +:+ path] in
  match opened with
  | inl err => (Queries, lines, Some err)
  | inr file => scanSbomFile_loop providers file Queries lines
  end.

(** The loop of [scanDebianDocker] over the lines of the output: blank lines
    are skipped, the others are cut at ["###"]; [splitText[1]] panics when
    there is no second part. *)
Fixpoint scanDebianDocker_lines (lines : list string) (allPackagesPurl : list string)
  : outcome (list string) :=
  match lines with
  | [] => Return allPackagesPurl
  | line :: lines' =>
      let text := TrimSpace line in
      if decide (String.length text = 0)
      then scanDebianDocker_lines lines' allPackagesPurl
      else
        let splitText := strings.Split text "###" in
        match splitText !! 0, splitText !! 1 with
        | Some name, Some version =>
            scanDebianDocker_lines lines'
              (allPackagesPurl ++ ["pkg:deb/debian/" +:+ name +:+ "@" +:+ version])
        | _, _ => Panic
        end
  end.

(** [scanDebianDocker]; [pipe_err] and [start_err] are the errors of
    [cmd.StdoutPipe()] and [cmd.Start()], [lines] what the scanner reads from
    the image's output. *)
Definition scanDebianDocker (pipe_err start_err : option error)
    (lines : list string) (Queries : list Query) : ending (list Query) :=
  match pipe_err with
  | Some _ => Fatal
  | None =>
      match start_err with
      | Some _ => Fatal
      | None =>
          match scanDebianDocker_lines lines [] with
          | Panic => Panics
          | Return allPackagesPurl =>
              Returns (Queries ++ (MakePURLRequest <$> allPackagesPurl))
          end
      end
  end.

(** *** Descriptions used in the statements below *)

(** The line reported for a query and its result, if any. *)
Definition report (qr : Query * MinimalResponse) : option string :=
  if decide (length (Vulns qr.2) = 0) then None
  else Some (vulnerable_line qr.1
               ((fun vuln => BaseVulnerabilityURL +:+ ID vuln) <$> Vulns qr.2)).

(** The queries a provider's identifiers become. *)
Definition emitted (ids : list Identifier) : list Query :=
  (fun id => MakePURLRequest (PURL id)) <$> ids.

End commands.

Arguments printResults {Query} show_query BaseVulnerabilityURL Queries Results.
Arguments printResults_loop {Query} show_query BaseVulnerabilityURL Results i
  queries lines.
Arguments vulnerable_line {Query} show_query query urls.
Arguments report {Query} show_query BaseVulnerabilityURL qr.
Arguments emitted {Query} MakePURLRequest ids.
Arguments scanSbomFile {Query} MakePURLRequest {File} providers opened Queries path.
Arguments scanSbomFile_loop {Query} MakePURLRequest {File} providers file Queries
  lines.
Arguments scanDebianDocker {Query} MakePURLRequest TrimSpace pipe_err start_err
  lines Queries.
Arguments Name {File} p.
Arguments GetPackages {File} p file.

(** Sample inputs: queries are their package URLs. *)
Definition sample_provider (name : string) (ids : list string) (err : option error)
  : Provider unit :=
  {| Name := name;
     GetPackages := fun file => (file, (fun p => {| PURL := p |}) <$> ids, err) |}.

Definition InvalidFormat : error :=
  {| is_InvalidFormat := true; message := "invalid format" |}.

End scanner.

(** * Properties *)

Import datastore storage.

(** ** Key names *)

Section key_names.

Implicit Types (b commit : list byte) (s addr hashType : string).

Lemma append_empty_r s : s +:+ "" = s.
Proof.
  induction s as [|c s IH]; [reflexivity|].
  change (String c (s +:+ "") = String c s). now f_equal.
Qed.

Lemma nibble_digit (c : byte) :
  fmt.digit (N.shiftr (Byte.to_N c) 4) = hex.digit (N.shiftr (Byte.to_N c) 4)
  /\ fmt.digit (N.land (Byte.to_N c) 15) = hex.digit (N.land (Byte.to_N c) 15).
Proof. destruct c; split; reflexivity. Qed.

(** [%x] on a byte slice and [hex.EncodeToString] print the same text. *)
Lemma fmtSbx_hex b : fmt.fmtSbx b = hex.EncodeToString b.
Proof.
  induction b as [|c b IH]; simpl; [reflexivity|].
  destruct (nibble_digit c) as [-> ->]. now rewrite IH.
Qed.

Lemma docName_text addr hashType commit :
  docName addr hashType commit
  = addr +:+ "-" +:+ hashType +:+ "-" +:+ hex.EncodeToString commit.
Proof.
  unfold docName, fmt.Sprintf, docKeyFmt. cbn.
  unfold fmt.fmtBx. rewrite append_empty_r, fmtSbx_hex. reflexivity.
Qed.

Lemma resultKey_text docKey hashType r :
  resultKey docKey hashType r
  = NameKey "RepoIndexBucket"
      (hex.EncodeToString (BucketHash r) +:+ "-" +:+ hashType) (Some docKey).
Proof.
  unfold resultKey, fmt.Sprintf, resultKeyFmt, resultKind. cbn.
  unfold fmt.fmtBx. rewrite append_empty_r, fmtSbx_hex. reflexivity.
Qed.

Lemma treeKey_text docKey hashType node :
  treeKey docKey hashType node
  = NameKey "RepoIndexResultTree"
      (hex.EncodeToString (processing.NodeHash node) +:+ "-" +:+ hashType
         +:+ "-" +:+ pretty (processing.FilesContained node)
         +:+ "-" +:+ pretty (processing.Height node))
      (Some docKey).
Proof.
  unfold treeKey, fmt.Sprintf, treeKeyFmt, treeKind. cbn.
  unfold fmt.fmtBx. rewrite append_empty_r, fmtSbx_hex. reflexivity.
Qed.

(** In [Exists] the commit operand is a [plumbing.Hash]: its [String()] text
    is what [%x] encodes. *)
Lemma Exists_name_text addr hashType (hash : plumbing.Hash) :
  fmt.Sprintf docKeyFmt [fmt.AString addr; fmt.AString hashType; fmt.AHash hash]
  = addr +:+ "-" +:+ hashType +:+ "-"
      +:+ hex.EncodeToString (list_byte_of_string (hex.EncodeToString hash)).
Proof.
  unfold fmt.Sprintf, docKeyFmt. cbn.
  unfold fmt.fmtSx, plumbing.Hash_String.
  rewrite append_empty_r, fmtSbx_hex. reflexivity.
Qed.

End key_names.

(** ** The transaction that [Store] runs *)

Section transaction.

Variable env : Faults.
Variables (docKey : Key) (hashType : string).

Implicit Types (tx : Transaction entity) (results : list result).
Implicit Types (layer : list processing.TreeNode).
Implicit Types (treeNodes : list (list processing.TreeNode)).

Lemma first_fault_app pf (l1 l2 : list (list Key)) :
  first_fault pf (l1 ++ l2)
  = match first_fault pf l1 with
    | Some err => Some err
    | None => first_fault pf l2
    end.
Proof.
  induction l1 as [|keys l1 IH]; simpl; [reflexivity|].
  destruct (pf keys); [reflexivity | exact IH].
Qed.

Lemma zip_fmap_same {A B C} (f : A -> B) (g : A -> C) (l : list A) :
  zip (f <$> l) (g <$> l) = (fun x => (f x, g x)) <$> l.
Proof. induction l as [|x l IH]; csimpl; [reflexivity | now f_equal]. Qed.

(** The inner loop keeps the nodes that contain files, in order. *)
Lemma Store_layer_filter layer ks ns :
  Store_layer docKey hashType layer ks ns
  = (ks ++ (treeKey docKey hashType <$> filter with_files layer),
     ns ++ filter with_files layer).
Proof.
  revert ks ns. induction layer as [|node layer IH]; intros ks ns; simpl.
  - now rewrite !app_nil_r.
  - rewrite filter_cons.
    destruct (decide (processing.FilesContained node = 0%Z)) as [Hz|Hnz];
      destruct (decide (with_files node)) as [Hw|Hw];
      unfold with_files in Hw; try contradiction.
    + apply IH.
    + rewrite IH. csimpl. now rewrite <- !app_assoc.
Qed.

Lemma Store_results_error results tx :
  (Store_results env docKey hashType results tx).1
  = first_fault (put_fault env)
      ((fun r : result => [resultKey docKey hashType r]) <$> results).
Proof.
  revert tx. induction results as [|r results IH]; intros tx; simpl; [reflexivity|].
  unfold Put. destruct (put_fault env [resultKey docKey hashType r]); [reflexivity|].
  apply IH.
Qed.

Lemma Store_results_buffer results tx :
  (Store_results env docKey hashType results tx).1 = None ->
  Store_results env docKey hashType results tx
  = (None, {| mutations := mutations tx ++ result_records docKey hashType results |}).
Proof.
  revert tx. induction results as [|r results IH]; intros tx; simpl.
  - intros _. destruct tx. simpl. now rewrite app_nil_r.
  - unfold Put. destruct (put_fault env [resultKey docKey hashType r]); [discriminate|].
    intros H. rewrite (IH _ H). simpl. now rewrite <- app_assoc.
Qed.

Lemma Store_layers_error treeNodes tx :
  (Store_layers env docKey hashType treeNodes tx).1
  = first_fault (put_fault env)
      ((fun layer : list processing.TreeNode =>
          treeKey docKey hashType <$> filter with_files layer) <$> treeNodes).
Proof.
  revert tx. induction treeNodes as [|layer treeNodes IH]; intros tx; simpl;
    [reflexivity|].
  rewrite Store_layer_filter. simpl. unfold PutMulti.
  destruct (put_fault env _); [reflexivity|].
  rewrite decide_True by now rewrite !length_fmap.
  apply IH.
Qed.

Lemma Store_layers_buffer treeNodes tx :
  (Store_layers env docKey hashType treeNodes tx).1 = None ->
  Store_layers env docKey hashType treeNodes tx
  = (None, {| mutations := mutations tx ++ layer_records docKey hashType treeNodes |}).
Proof.
  revert tx. induction treeNodes as [|layer treeNodes IH]; intros tx; simpl.
  - intros _. destruct tx. simpl. now rewrite app_nil_r.
  - rewrite Store_layer_filter. simpl. unfold PutMulti.
    destruct (put_fault env _); [discriminate|].
    rewrite decide_True by now rewrite !length_fmap.
    intros H. rewrite (IH _ H). simpl.
    now rewrite zip_fmap_same, <- app_assoc.
Qed.

(** The transaction function returns the error of the first call that
    fails ... *)
Lemma Store_tx_error doc results treeNodes tx :
  (Store_tx env docKey doc results hashType treeNodes tx).1
  = first_fault (put_fault env) (Store_calls docKey hashType results treeNodes).
Proof.
  unfold Store_tx, Store_calls, Put. simpl.
  destruct (put_fault env [docKey]); [reflexivity|].
  set (tx1 := {| mutations := mutations tx ++ [(docKey, EDoc doc)] |}).
  rewrite first_fault_app, <- (Store_results_error results tx1).
  destruct (Store_results _ _ _ _ _) as [[err|] tx'] eqn:E; simpl; [reflexivity|].
  apply Store_layers_error.
Qed.

(** ... and, when none fails, has buffered every record of the call. *)
Lemma Store_tx_buffer doc results treeNodes tx :
  first_fault (put_fault env) (Store_calls docKey hashType results treeNodes) = None ->
  Store_tx env docKey doc results hashType treeNodes tx
  = (None, {| mutations :=
                mutations tx ++ Store_records docKey doc hashType results treeNodes |}).
Proof.
  unfold Store_tx, Store_calls, Store_records, Put. simpl.
  destruct (put_fault env [docKey]); [discriminate|].
  set (tx1 := {| mutations := mutations tx ++ [(docKey, EDoc doc)] |}).
  rewrite first_fault_app, <- (Store_results_error results tx1).
  destruct (Store_results _ _ _ _ _) as [[err|] tx'] eqn:E; simpl; [discriminate|].
  rewrite Store_results_buffer in E by now rewrite E.
  injection E as <-.
  set (tx2 := {| mutations := mutations tx1 ++ result_records docKey hashType results |}).
  rewrite <- (Store_layers_error treeNodes tx2). intros H.
  change (Store_layers env docKey hashType treeNodes tx2 = (None,
    {| mutations := mutations tx ++ (docKey, EDoc doc)
         :: result_records docKey hashType results
         ++ layer_records docKey hashType treeNodes |})).
  rewrite (Store_layers_buffer _ _ H). subst tx2 tx1. simpl.
  now rewrite <- !app_assoc.
Qed.

End transaction.

(** ** [newResult] and [newDoc] *)

Section documents.

Implicit Types (v : list processing.FileResult).
Implicit Types (bucketResults vs : list (list processing.FileResult)).
Implicit Types (baseTreeLayer : list processing.TreeNode).

Lemma newResult_loop_app v paths hashes :
  newResult_loop v paths hashes
  = (paths ++ (processing.Path <$> v), hashes ++ (processing.Hash <$> v)).
Proof.
  revert paths hashes. induction v as [|r v IH]; intros paths hashes; simpl.
  - now rewrite !app_nil_r.
  - rewrite IH. csimpl. now rewrite <- !app_assoc.
Qed.

Lemma newResult_fields v bucketHash :
  newResult v bucketHash
  = {| BucketHash := bucketHash;
       Path := processing.Path <$> v;
       Hash := processing.Hash <$> v |}.
Proof. unfold newResult. now rewrite newResult_loop_app. Qed.

(** Inside the loop the outer slice is never empty, so the guard never
    fires: every group is turned into a result, or the index is out of
    range. *)
Lemma newDoc_loop_in_range bucketResults baseTreeLayer i vs acc :
  length bucketResults <> 0 ->
  i + length vs <= length baseTreeLayer ->
  newDoc_loop bucketResults baseTreeLayer i vs acc
  = Return (acc ++ group_results vs (drop i baseTreeLayer)).
Proof.
  intros Hne. revert i acc.
  induction vs as [|v vs IH]; intros i acc Hlen; simpl.
  - unfold group_results. simpl. now rewrite app_nil_r.
  - rewrite decide_False by assumption.
    assert (Hi : i < length baseTreeLayer) by (simpl in Hlen; lia).
    destruct (lookup_lt_is_Some_2 baseTreeLayer i Hi) as [node Hnode].
    rewrite Hnode, IH by (simpl in Hlen; lia).
    rewrite (drop_S _ _ _ Hnode). unfold group_results. simpl.
    now rewrite <- app_assoc.
Qed.

Lemma newDoc_loop_out_of_range bucketResults baseTreeLayer i vs acc :
  length bucketResults <> 0 ->
  i <= length baseTreeLayer ->
  length baseTreeLayer < i + length vs ->
  newDoc_loop bucketResults baseTreeLayer i vs acc = Panic.
Proof.
  intros Hne. revert i acc.
  induction vs as [|v vs IH]; intros i acc Hi Hlen; simpl.
  - simpl in Hlen. lia.
  - rewrite decide_False by assumption.
    destruct (baseTreeLayer !! i) as [node|] eqn:Hnode; [|reflexivity].
    apply lookup_lt_Some in Hnode.
    apply IH; simpl in Hlen; lia.
Qed.

Lemma newDoc_cases repoInfo hashType bucketResults baseTreeLayer :
  newDoc repoInfo hashType bucketResults baseTreeLayer
  = if decide (length bucketResults <= length baseTreeLayer)
    then Return (repo_document repoInfo hashType,
                 group_results bucketResults baseTreeLayer)
    else Panic.
Proof.
  unfold newDoc. destruct bucketResults as [|v vs].
  - destruct (decide _) as [|Hn]; [reflexivity | simpl in Hn; lia].
  - set (br := v :: vs). assert (Hne : length br <> 0) by (simpl; lia).
    destruct (decide (length br <= length baseTreeLayer)) as [Hle|Hgt].
    + rewrite newDoc_loop_in_range by (assumption || lia). reflexivity.
    + rewrite newDoc_loop_out_of_range by (assumption || lia). reflexivity.
Qed.

End documents.

(** ** [Store], call by call *)

Section store_call.

Variable env : Faults.
Variable s : Store.
Variable repoInfo : preparation.Result.
Variable hashType : string.
Variable bucketResults : list (list processing.FileResult).

Lemma Store_Store_cases treeNodes :
  Store_Store env s repoInfo hashType bucketResults treeNodes
  = match treeNodes with
    | [] => Panic
    | baseTreeLayer :: _ =>
        if decide (length bucketResults <= length baseTreeLayer) then
          let docKey := Store_docKey repoInfo hashType in
          let doc := repo_document repoInfo hashType in
          let results := group_results bucketResults baseTreeLayer in
          match first_fault (put_fault env)
                  (Store_calls docKey hashType results treeNodes) with
          | Some err => Return (s, Some err)
          | None =>
              match commit_fault env with
              | Some err => Return (s, Some err)
              | None =>
                  Return (committed s
                            (Store_records docKey doc hashType results treeNodes),
                          None)
              end
          end
        else Panic
    end.
Proof.
  unfold Store_Store. destruct treeNodes as [|baseTreeLayer rest]; [reflexivity|].
  change ((baseTreeLayer :: rest) !! 0) with (Some baseTreeLayer).
  cbv beta iota zeta. rewrite newDoc_cases.
  destruct (decide (length bucketResults <= length baseTreeLayer)); [|reflexivity].
  set (tn := baseTreeLayer :: rest).
  set (docKey := Store_docKey repoInfo hashType).
  set (doc := repo_document repoInfo hashType).
  set (results := group_results bucketResults baseTreeLayer).
  unfold RunInTransaction.
  pose proof (Store_tx_error env docKey hashType doc results tn begin) as Herr.
  destruct (first_fault (put_fault env) (Store_calls docKey hashType results tn))
    as [err|] eqn:Hff.
  - destruct (Store_tx env docKey doc results hashType tn begin) as [r tx].
    simpl in Herr. subst r. destruct s. reflexivity.
  - rewrite (Store_tx_buffer env docKey hashType doc results tn begin Hff).
    destruct (commit_fault env); [destruct s|]; reflexivity.
Qed.

End store_call.

(** ** The transaction is atomic *)

Section atomicity.

Implicit Types (env : Faults) (s : Store) (repoInfo : preparation.Result).
Implicit Types (hashType : string).
Implicit Types (bucketResults : list (list processing.FileResult)).
Implicit Types (treeNodes : list (list processing.TreeNode)).

(** C1.  A call of [Store] that returns has run one transaction over the
    document, every result and every tree node with files.  If one of its
    [Put]/[PutMulti] calls fails, [Store] returns the error of the first such
    call and the store is as before; if the commit fails, likewise; otherwise
    [Store] returns nil and all records are committed together. *)
Theorem Store_atomic env s repoInfo hashType bucketResults treeNodes s' err :
  Store_Store env s repoInfo hashType bucketResults treeNodes = Return (s', err) ->
  exists baseTreeLayer doc results,
    treeNodes !! 0 = Some baseTreeLayer
    /\ newDoc repoInfo hashType bucketResults baseTreeLayer = Return (doc, results)
    /\ match first_fault (put_fault env)
               (Store_calls (Store_docKey repoInfo hashType) hashType results
                  treeNodes) with
       | Some e => err = Some e /\ s' = s
       | None =>
           match commit_fault env with
           | Some e => err = Some e /\ s' = s
           | None =>
               err = None
               /\ s' = committed s
                         (Store_records (Store_docKey repoInfo hashType) doc
                            hashType results treeNodes)
           end
       end.
Proof.
  rewrite Store_Store_cases.
  destruct treeNodes as [|baseTreeLayer rest]; [discriminate|].
  destruct (decide (length bucketResults <= length baseTreeLayer)) as [Hle|];
    [|discriminate].
  intros H. exists baseTreeLayer, (repo_document repoInfo hashType),
    (group_results bucketResults baseTreeLayer).
  split; [reflexivity|]. split.
  { rewrite newDoc_cases. now rewrite decide_True by assumption. }
  cbv zeta in H.
  destruct (first_fault _ _) as [e|].
  - injection H as <- <-. now split.
  - destruct (commit_fault env) as [e|]; injection H as <- <-; now split.
Qed.

Lemma Store_atomic_witness :
  Store_Store no_faults examples.empty_store examples.repo "md5"
    [[examples.file1]] [[examples.node1]] = Return (examples.stored1, None)
  /\ exists baseTreeLayer doc results,
    [[examples.node1]] !! 0 = Some baseTreeLayer
    /\ newDoc examples.repo "md5" [[examples.file1]] baseTreeLayer
       = Return (doc, results)
    /\ match first_fault (put_fault no_faults)
               (Store_calls (Store_docKey examples.repo "md5") "md5" results
                  [[examples.node1]]) with
       | Some e => None = Some e /\ examples.stored1 = examples.empty_store
       | None =>
           match commit_fault no_faults with
           | Some e => None = Some e /\ examples.stored1 = examples.empty_store
           | None =>
               @None error = None
               /\ examples.stored1
                  = committed examples.empty_store
                      (Store_records (Store_docKey examples.repo "md5") doc
                         "md5" results [[examples.node1]])
           end
       end.
Proof.
  split.
  - reflexivity.
  - apply (Store_atomic no_faults examples.empty_store examples.repo "md5"
             [[examples.file1]] [[examples.node1]] examples.stored1 None).
    reflexivity.
Defined.

End atomicity.

(** ** What a committed call writes *)

Section written_records.

Implicit Types (env : Faults) (s : Store) (repoInfo : preparation.Result).
Implicit Types (hashType : string).
Implicit Types (bucketResults : list (list processing.FileResult)).
Implicit Types (treeNodes : list (list processing.TreeNode)).

(** A call that returns nil has committed exactly [Store_records]. *)
Lemma Store_committed env s repoInfo hashType bucketResults treeNodes s' :
  Store_Store env s repoInfo hashType bucketResults treeNodes = Return (s', None) ->
  exists baseTreeLayer,
    treeNodes !! 0 = Some baseTreeLayer
    /\ length bucketResults <= length baseTreeLayer
    /\ s' = committed s
              (Store_records (Store_docKey repoInfo hashType)
                 (repo_document repoInfo hashType) hashType
                 (group_results bucketResults baseTreeLayer) treeNodes).
Proof.
  rewrite Store_Store_cases.
  destruct treeNodes as [|baseTreeLayer rest]; [discriminate|].
  destruct (decide (length bucketResults <= length baseTreeLayer)) as [Hle|];
    [|discriminate].
  cbv zeta. destruct (first_fault _ _) as [e|]; [discriminate|].
  destruct (commit_fault env) as [e|]; [discriminate|].
  intros H. injection H as <-. exists baseTreeLayer. now repeat split.
Qed.

(** A call that returns an error has committed nothing. *)
Lemma Store_failed env s repoInfo hashType bucketResults treeNodes s' e :
  Store_Store env s repoInfo hashType bucketResults treeNodes = Return (s', Some e) ->
  s' = s.
Proof.
  rewrite Store_Store_cases.
  destruct treeNodes as [|baseTreeLayer rest]; [discriminate|].
  destruct (decide (length bucketResults <= length baseTreeLayer)) as [Hle|];
    [|discriminate].
  cbv zeta. destruct (first_fault _ _) as [e1|].
  - intros H. now injection H as <- _.
  - destruct (commit_fault env) as [e1|]; [|discriminate].
    intros H. now injection H as <- _.
Qed.

Lemma Store_records_scheme repoInfo hashType doc results treeNodes :
  Forall (key_scheme (preparation.Addr repoInfo) hashType
            (preparation.Commit repoInfo))
    (Store_records (Store_docKey repoInfo hashType) doc hashType results treeNodes).
Proof.
  unfold Store_records, Store_docKey. rewrite docName_text.
  apply Forall_cons. split; [reflexivity|].
  apply Forall_app. split.
  - unfold result_records. apply Forall_fmap, Forall_forall. intros r _.
    unfold compose, key_scheme. simpl. apply resultKey_text.
  - unfold layer_records. apply Forall_bind, Forall_forall. intros layer _.
    unfold compose. apply Forall_fmap, Forall_forall. intros node _.
    unfold compose, key_scheme. simpl. apply treeKey_text.
Qed.

(** C2.  The records a call of [Store] commits are keyed by the textual
    scheme: the document under [<address>-<hashType>-<commit hex>], each
    result under [<bucketHash hex>-<hashType>] and each tree node under
    [<nodeHash hex>-<hashType>-<filesContained>-<height>], the latter two with
    the document key as parent. *)
Theorem Store_key_scheme env s repoInfo hashType bucketResults treeNodes s' :
  Store_Store env s repoInfo hashType bucketResults treeNodes = Return (s', None) ->
  exists records,
    commits (dsCl s') = commits (dsCl s) ++ [records]
    /\ entities (dsCl s') = apply_mutations records (entities (dsCl s))
    /\ (exists doc, records !! 0 = Some (Store_docKey repoInfo hashType, EDoc doc))
    /\ Forall (key_scheme (preparation.Addr repoInfo) hashType
                 (preparation.Commit repoInfo)) records.
Proof.
  intros H. apply Store_committed in H as (baseTreeLayer & _ & _ & ->).
  eexists. split; [reflexivity|]. split; [reflexivity|]. split.
  - eexists. reflexivity.
  - apply Store_records_scheme.
Qed.

Lemma Store_key_scheme_witness :
  Store_Store no_faults examples.empty_store examples.repo "md5"
    [[examples.file1]] [[examples.node1]] = Return (examples.stored1, None)
  /\ exists records,
    commits (dsCl examples.stored1)
    = commits (dsCl examples.empty_store) ++ [records]
    /\ entities (dsCl examples.stored1)
       = apply_mutations records (entities (dsCl examples.empty_store))
    /\ (exists doc, records !! 0 = Some (Store_docKey examples.repo "md5", EDoc doc))
    /\ Forall (key_scheme (preparation.Addr examples.repo) "md5"
                 (preparation.Commit examples.repo)) records.
Proof.
  split.
  - reflexivity.
  - apply (Store_key_scheme no_faults examples.empty_store examples.repo "md5"
             [[examples.file1]] [[examples.node1]] examples.stored1).
    reflexivity.
Defined.

Lemma elem_of_layer_records docKey hashType treeNodes key (e : entity) :
  (key, e) ∈ layer_records docKey hashType treeNodes
  <-> exists layer node,
        layer ∈ treeNodes /\ node ∈ layer /\ with_files node
        /\ key = treeKey docKey hashType node /\ e = ETree node.
Proof.
  unfold layer_records. rewrite list_elem_of_bind. split.
  - intros (layer & Hin & Hlayer).
    apply list_elem_of_fmap in Hin as (node & Heq & Hnode).
    apply list_elem_of_filter in Hnode as [Hw Hnode].
    injection Heq as -> ->. now exists layer, node.
  - intros (layer & node & Hlayer & Hnode & Hw & -> & ->).
    exists layer. split; [|assumption].
    apply list_elem_of_fmap. exists node. split; [reflexivity|].
    now apply list_elem_of_filter.
Qed.

Lemma tree_record_in_records docKey doc hashType results treeNodes key node :
  (key, ETree node) ∈ Store_records docKey doc hashType results treeNodes
  <-> (key, ETree node) ∈ layer_records docKey hashType treeNodes.
Proof.
  unfold Store_records. rewrite elem_of_cons, elem_of_app. split.
  - intros [Heq|[Hres|Hlay]]; [discriminate| |assumption].
    unfold result_records in Hres.
    apply list_elem_of_fmap in Hres as (r & Heq & _). discriminate.
  - intros H. right. now right.
Qed.

(** C3.  In the records a call of [Store] commits, the record of a tree node
    of some layer is present if and only if the node's [FilesContained] is not
    zero, and every tree-node record committed is such a node's; a call that
    returns an error commits nothing. *)
Theorem Store_tree_nodes env s repoInfo hashType bucketResults treeNodes s' err :
  Store_Store env s repoInfo hashType bucketResults treeNodes = Return (s', err) ->
  match err with
  | Some _ => commits (dsCl s') = commits (dsCl s)
  | None =>
      exists records,
        commits (dsCl s') = commits (dsCl s) ++ [records]
        /\ (forall layer node,
              layer ∈ treeNodes -> node ∈ layer ->
              ((treeKey (Store_docKey repoInfo hashType) hashType node,
                ETree node) ∈ records
               <-> processing.FilesContained node <> 0%Z))
        /\ (forall key node,
              (key, ETree node) ∈ records ->
              processing.FilesContained node <> 0%Z
              /\ key = treeKey (Store_docKey repoInfo hashType) hashType node
              /\ exists layer, layer ∈ treeNodes /\ node ∈ layer)
  end.
Proof.
  intros H. destruct err as [e|].
  - now rewrite (Store_failed _ _ _ _ _ _ _ _ H).
  - apply Store_committed in H as (baseTreeLayer & _ & _ & ->).
    eexists. split; [reflexivity|]. split.
    + intros layer node Hlayer Hnode.
      rewrite tree_record_in_records, elem_of_layer_records. split.
      * intros (layer' & node' & _ & _ & Hw & _ & Heq). now injection Heq as <-.
      * intros Hw. now exists layer, node.
    + intros key node Hin.
      apply tree_record_in_records, elem_of_layer_records in Hin
        as (layer & node' & Hlayer & Hnode & Hw & -> & Heq).
      injection Heq as <-. split; [exact Hw|]. split; [reflexivity|].
      now exists layer.
Qed.

Lemma Store_tree_nodes_witness :
  Store_Store no_faults examples.empty_store examples.repo "md5"
    [[examples.file1]] examples.layers2 = Return (examples.stored2, None)
  /\ exists records,
       commits (dsCl examples.stored2)
       = commits (dsCl examples.empty_store) ++ [records]
       /\ (forall layer node,
             layer ∈ examples.layers2 -> node ∈ layer ->
             ((treeKey (Store_docKey examples.repo "md5") "md5" node,
               ETree node) ∈ records
              <-> processing.FilesContained node <> 0%Z))
       /\ (forall key node,
             (key, ETree node) ∈ records ->
             processing.FilesContained node <> 0%Z
             /\ key = treeKey (Store_docKey examples.repo "md5") "md5" node
             /\ exists layer, layer ∈ examples.layers2 /\ node ∈ layer).
Proof.
  split.
  - reflexivity.
  - apply (Store_tree_nodes no_faults examples.empty_store examples.repo "md5"
             [[examples.file1]] examples.layers2 examples.stored2 None).
    reflexivity.
Defined.

End written_records.

(** ** Empty inputs and index panics *)

Section preconditions.

Implicit Types (env : Faults) (s : Store) (repoInfo : preparation.Result).
Implicit Types (hashType : string).
Implicit Types (bucketResults : list (list processing.FileResult)).
Implicit Types (baseTreeLayer : list processing.TreeNode).
Implicit Types (treeNodes : list (list processing.TreeNode)).

Lemma no_layer_records docKey hashType treeNodes :
  Forall (fun layer => layer = []) treeNodes ->
  layer_records docKey hashType treeNodes = [].
Proof.
  unfold layer_records. induction 1 as [|layer treeNodes -> _ IH]; [reflexivity|].
  rewrite bind_cons, IH. reflexivity.
Qed.

Lemma no_layer_calls env docKey hashType treeNodes :
  Forall (fun layer => layer = []) treeNodes ->
  put_fault env [] = None ->
  first_fault (put_fault env)
    ((fun layer : list processing.TreeNode =>
        treeKey docKey hashType <$> filter with_files layer) <$> treeNodes) = None.
Proof.
  intros Hall Hput. induction Hall as [|layer treeNodes -> _ IH]; [reflexivity|].
  csimpl. rewrite Hput. exact IH.
Qed.

Lemma document_only_calls env docKey hashType treeNodes :
  Forall (fun layer => layer = []) treeNodes ->
  put_fault env [docKey] = None ->
  put_fault env [] = None ->
  first_fault (put_fault env) (Store_calls docKey hashType [] treeNodes) = None.
Proof.
  intros Hall Hdoc Hnil. unfold Store_calls. cbn [first_fault]. rewrite Hdoc.
  exact (no_layer_calls env docKey hashType treeNodes Hall Hnil).
Qed.

Lemma document_only_records docKey doc hashType treeNodes :
  Forall (fun layer => layer = []) treeNodes ->
  Store_records docKey doc hashType [] treeNodes = [(docKey, EDoc doc)].
Proof.
  intros Hall. unfold Store_records. now rewrite (no_layer_records _ _ _ Hall).
Qed.

(** C4, as amended.  With no bucket results and a [treeNodes] that has at
    least one layer and no node in any layer, a call whose [Put], [PutMulti]
    and commit do not fail returns nil and commits the document record
    alone. *)
Theorem Store_empty_repository env s repoInfo hashType treeNodes :
  treeNodes <> [] ->
  Forall (fun layer => layer = []) treeNodes ->
  put_fault env [Store_docKey repoInfo hashType] = None ->
  put_fault env [] = None ->
  commit_fault env = None ->
  exists s',
    Store_Store env s repoInfo hashType [] treeNodes = Return (s', None)
    /\ entities (dsCl s')
       = <[Store_docKey repoInfo hashType := EDoc (repo_document repoInfo hashType)]>
           (entities (dsCl s))
    /\ commits (dsCl s')
       = commits (dsCl s)
           ++ [[(Store_docKey repoInfo hashType,
                 EDoc (repo_document repoInfo hashType))]]
    /\ cache s' = cache s.
Proof.
  intros Hne Hall Hdoc Hnil Hcommit.
  rewrite Store_Store_cases.
  destruct treeNodes as [|baseTreeLayer rest]; [congruence|].
  rewrite decide_True by (simpl; lia). cbv zeta.
  change (group_results [] baseTreeLayer) with (@nil result).
  rewrite (document_only_calls env _ _ _ Hall Hdoc Hnil), Hcommit.
  rewrite (document_only_records _ _ _ _ Hall).
  eexists. split; [reflexivity|]. now repeat split.
Qed.

Lemma Store_empty_repository_witness :
  [[] : list processing.TreeNode] <> []
  /\ Forall (fun layer : list processing.TreeNode => layer = []) [[]]
  /\ exists s',
       Store_Store no_faults examples.empty_store examples.repo "md5" [] [[]]
       = Return (s', None)
       /\ entities (dsCl s')
          = <[Store_docKey examples.repo "md5"
                := EDoc (repo_document examples.repo "md5")]>
              (entities (dsCl examples.empty_store))
       /\ commits (dsCl s')
          = commits (dsCl examples.empty_store)
              ++ [[(Store_docKey examples.repo "md5",
                    EDoc (repo_document examples.repo "md5"))]]
       /\ cache s' = cache examples.empty_store.
Proof.
  assert (H1 : [[] : list processing.TreeNode] <> []) by discriminate.
  assert (H2 : Forall (fun layer : list processing.TreeNode => layer = []) [[]])
    by (constructor; [reflexivity | constructor]).
  split; [exact H1|]. split; [exact H2|].
  apply (Store_empty_repository no_faults examples.empty_store examples.repo
           "md5" [[]] H1 H2); reflexivity.
Defined.

(** C4, as stated, fails when [treeNodes] itself is the empty slice: the call
    panics at [treeNodes[0]]. *)
Lemma Store_no_layers_panics :
  Store_Store no_faults examples.empty_store examples.repo "md5" [] [] = Panic
  /\ ~ exists s' err,
         Store_Store no_faults examples.empty_store examples.repo "md5" [] []
         = Return (s', err).
Proof.
  split; [reflexivity|]. intros (s' & err & H). discriminate H.
Qed.

(** C9.  [Store] panics exactly when [treeNodes] is empty or its first layer
    is shorter than [bucketResults] (and [newDoc] exactly in the latter
    case); in every other case it returns, with or without an error. *)
Theorem Store_panics_out_of_range env s repoInfo hashType bucketResults treeNodes :
  (Store_Store env s repoInfo hashType bucketResults treeNodes = Panic
   <-> treeNodes = []
       \/ exists baseTreeLayer,
            treeNodes !! 0 = Some baseTreeLayer
            /\ length baseTreeLayer < length bucketResults)
  /\ (forall baseTreeLayer,
        newDoc repoInfo hashType bucketResults baseTreeLayer = Panic
        <-> length baseTreeLayer < length bucketResults).
Proof.
  split.
  - rewrite Store_Store_cases.
    destruct treeNodes as [|baseTreeLayer rest].
    + split; [now left | reflexivity].
    + destruct (decide (length bucketResults <= length baseTreeLayer)) as [Hle|Hgt].
      * cbv zeta. split.
        -- destruct (first_fault _ _); [discriminate|].
           destruct (commit_fault env); discriminate.
        -- intros [Hnil|(base & Hbase & Hlt)]; [discriminate|].
           injection Hbase as <-. lia.
      * split; [|reflexivity]. intros _. right. exists baseTreeLayer.
        split; [reflexivity | lia].
  - intros baseTreeLayer. rewrite newDoc_cases.
    destruct (decide (length bucketResults <= length baseTreeLayer)).
    + split; [discriminate | lia].
    + split; [lia | reflexivity].
Qed.

(** C10.  [newDoc] skips no group: when it returns, it has produced one
    result per group of [bucketResults], the result of group [i] being
    [newResult] of that group under the hash of the height-0 node [i], with
    empty path and hash lists for an empty group; and a call of [Store] that
    returns nil has committed the record of each of these results. *)
Theorem newDoc_one_result_per_group repoInfo hashType bucketResults baseTreeLayer :
  bucketResults <> [] ->
  match newDoc repoInfo hashType bucketResults baseTreeLayer with
  | Panic => length baseTreeLayer < length bucketResults
  | Return (doc, results) =>
      length results = length bucketResults
      /\ (forall i v,
            bucketResults !! i = Some v ->
            exists node,
              baseTreeLayer !! i = Some node
              /\ results !! i = Some (newResult v (processing.NodeHash node))
              /\ (v = [] ->
                  results !! i
                  = Some {| BucketHash := processing.NodeHash node;
                            Path := []; Hash := [] |}))
      /\ (forall env s treeNodes s',
            treeNodes !! 0 = Some baseTreeLayer ->
            Store_Store env s repoInfo hashType bucketResults treeNodes
            = Return (s', None) ->
            exists records,
              commits (dsCl s') = commits (dsCl s) ++ [records]
              /\ forall r, r ∈ results ->
                   (resultKey (Store_docKey repoInfo hashType) hashType r,
                    EResult r) ∈ records)
  end.
Proof.
  intros _. rewrite newDoc_cases.
  destruct (decide (length bucketResults <= length baseTreeLayer)) as [Hle|Hgt];
    [|lia].
  split; [|split].
  - unfold group_results. rewrite length_zip_with. lia.
  - intros i v Hv.
    destruct (lookup_lt_is_Some_2 baseTreeLayer i) as [node Hnode].
    { apply lookup_lt_Some in Hv. lia. }
    exists node. split; [exact Hnode|].
    assert (Hr : group_results bucketResults baseTreeLayer !! i
                 = Some (newResult v (processing.NodeHash node))).
    { apply lookup_zip_with_Some. now exists v, node. }
    split; [exact Hr|]. intros ->. rewrite Hr. reflexivity.
  - intros env s treeNodes s' Hbase H.
    apply Store_committed in H as (base & Hbase' & _ & ->).
    rewrite Hbase in Hbase'. injection Hbase' as <-.
    eexists. split; [reflexivity|]. intros r Hr.
    unfold Store_records. apply elem_of_cons. right.
    apply elem_of_app. left. unfold result_records.
    apply list_elem_of_fmap. now exists r.
Qed.

Lemma newDoc_one_result_per_group_witness :
  [[] : list processing.FileResult] <> []
  /\ match newDoc examples.repo "md5" [[]] [examples.node0] with
     | Panic => length [examples.node0] < length [[] : list processing.FileResult]
     | Return (doc, results) =>
         length results = length [[] : list processing.FileResult]
         /\ (forall i v,
               [[] : list processing.FileResult] !! i = Some v ->
               exists node,
                 [examples.node0] !! i = Some node
                 /\ results !! i = Some (newResult v (processing.NodeHash node))
                 /\ (v = [] ->
                     results !! i
                     = Some {| BucketHash := processing.NodeHash node;
                               Path := []; Hash := [] |}))
         /\ (forall env s treeNodes s',
               treeNodes !! 0 = Some [examples.node0] ->
               Store_Store env s examples.repo "md5" [[]] treeNodes
               = Return (s', None) ->
               exists records,
                 commits (dsCl s') = commits (dsCl s) ++ [records]
                 /\ forall r, r ∈ results ->
                      (resultKey (Store_docKey examples.repo "md5") "md5" r,
                       EResult r) ∈ records)
     end.
Proof.
  assert (H : [[] : list processing.FileResult] <> []) by discriminate.
  split; [exact H|].
  exact (newDoc_one_result_per_group examples.repo "md5" [[]] [examples.node0] H).
Defined.

End preconditions.

(** ** Storing twice *)

Section overwrite.

Implicit Types (m : gmap Key entity) (muts : list (Key * entity)) (k : Key).

Lemma apply_mutations_snoc muts kv m :
  apply_mutations (muts ++ [kv]) m = <[kv.1 := kv.2]> (apply_mutations muts m).
Proof. unfold apply_mutations. now rewrite foldl_snoc. Qed.

Lemma last_write_snoc k muts (kv : Key * entity) :
  last_write k (muts ++ [kv])
  = if decide (kv.1 = k) then Some kv.2 else last_write k muts.
Proof. unfold last_write. now rewrite foldl_snoc. Qed.

(** After a commit a key holds the last value written under it, or what it
    held before when nothing was written under it. *)
Lemma lookup_apply_mutations muts m k :
  apply_mutations muts m !! k
  = match last_write k muts with
    | Some e => Some e
    | None => m !! k
    end.
Proof.
  induction muts as [|kv muts IH] using rev_ind; [reflexivity|].
  rewrite apply_mutations_snoc, last_write_snoc, lookup_insert.
  destruct (decide (kv.1 = k)); [reflexivity | exact IH].
Qed.

Lemma last_write_None k muts :
  last_write k muts = None <-> k ∉ muts.*1.
Proof.
  induction muts as [|kv muts IH] using rev_ind.
  - split; [intros _; apply not_elem_of_nil | reflexivity].
  - rewrite last_write_snoc, fmap_app, elem_of_app. simpl.
    rewrite list_elem_of_singleton.
    destruct (decide (kv.1 = k)) as [Heq|Hne].
    + split; [discriminate | intros H; exfalso; apply H; now right].
    + rewrite IH. split; [intros H [H1|H1]; [tauto | congruence] | tauto].
Qed.

Lemma last_write_Some k muts e :
  last_write k muts = Some e -> (k, e) ∈ muts.
Proof.
  induction muts as [|kv muts IH] using rev_ind; [discriminate|].
  rewrite last_write_snoc, elem_of_app, list_elem_of_singleton.
  destruct (decide (kv.1 = k)) as [<-|Hne].
  - intros H. injection H as <-. right. now destruct kv.
  - intros H. left. now apply IH.
Qed.

Lemma apply_mutations_twice muts m :
  apply_mutations muts (apply_mutations muts m) = apply_mutations muts m.
Proof.
  apply map_eq. intros k. rewrite !lookup_apply_mutations.
  now destruct (last_write k muts).
Qed.

(** The document key is written once in a call, by its first record. *)
Lemma last_write_docKey docKey doc hashType results treeNodes :
  last_write docKey (Store_records docKey doc hashType results treeNodes)
  = Some (EDoc doc).
Proof.
  unfold Store_records.
  set (rest := result_records docKey hashType results
                 ++ layer_records docKey hashType treeNodes).
  assert (Hrest : last_write docKey rest = None).
  { apply last_write_None. intros Hin.
    apply list_elem_of_fmap in Hin as ([k e] & Hk & Hin). simpl in Hk. subst k.
    apply elem_of_app in Hin as [Hin|Hin].
    - apply list_elem_of_fmap in Hin as (r & Heq & _).
      injection Heq as Heq _.
      apply (f_equal (fun key => length (key_path key))) in Heq.
      simpl in Heq. lia.
    - apply elem_of_layer_records in Hin as (_ & node & _ & _ & _ & Heq & _).
      apply (f_equal (fun key => length (key_path key))) in Heq.
      simpl in Heq. lia. }
  revert Hrest. generalize rest. clear rest. intros rest.
  induction rest as [|kv rest IH] using rev_ind; intros Hrest.
  - unfold last_write. simpl. now rewrite decide_True.
  - rewrite app_comm_cons, last_write_snoc.
    rewrite last_write_snoc in Hrest.
    destruct (decide (kv.1 = docKey)); [discriminate|]. now apply IH.
Qed.

Lemma entities_committed (s : Store) muts :
  entities (dsCl (committed s muts)) = apply_mutations muts (entities (dsCl s)).
Proof. reflexivity. Qed.

(** C5, as amended.  A second successful call of [Store] for the same
    (address, hashType, commit) replaces the document and every record whose
    key it writes, and leaves every other record in place, records of the
    first call included; the triple's key holds one document, the latest; a
    second call with the arguments of the first changes no entity. *)
Theorem Store_twice_upserts env1 env2 s0 s1 s2 repoInfo1 repoInfo2 hashType
    bucketResults1 bucketResults2 treeNodes1 treeNodes2 :
  preparation.Addr repoInfo2 = preparation.Addr repoInfo1 ->
  preparation.Commit repoInfo2 = preparation.Commit repoInfo1 ->
  Store_Store env1 s0 repoInfo1 hashType bucketResults1 treeNodes1
  = Return (s1, None) ->
  Store_Store env2 s1 repoInfo2 hashType bucketResults2 treeNodes2
  = Return (s2, None) ->
  exists records2,
    commits (dsCl s2) = commits (dsCl s1) ++ [records2]
    /\ entities (dsCl s2) !! Store_docKey repoInfo1 hashType
       = Some (EDoc (repo_document repoInfo2 hashType))
    /\ (forall k e, last_write k records2 = Some e ->
                    (k, e) ∈ records2 /\ entities (dsCl s2) !! k = Some e)
    /\ (forall k, k ∉ records2.*1 ->
                  entities (dsCl s2) !! k = entities (dsCl s1) !! k)
    /\ (repoInfo2 = repoInfo1 -> bucketResults2 = bucketResults1 ->
        treeNodes2 = treeNodes1 ->
        entities (dsCl s2) = entities (dsCl s1)).
Proof.
  intros Haddr Hcommit H1 H2.
  assert (Hkey : Store_docKey repoInfo2 hashType = Store_docKey repoInfo1 hashType)
    by (unfold Store_docKey; now rewrite Haddr, Hcommit).
  apply Store_committed in H1 as (base1 & Hb1 & _ & ->).
  apply Store_committed in H2 as (base2 & Hb2 & _ & ->).
  eexists. split; [reflexivity|].
  rewrite (entities_committed (committed s0 _)).
  split; [|split; [|split]].
  - rewrite lookup_apply_mutations, <- Hkey, last_write_docKey. reflexivity.
  - intros k e Hlast. split; [now apply last_write_Some|].
    now rewrite lookup_apply_mutations, Hlast.
  - intros k Hk. apply last_write_None in Hk.
    now rewrite lookup_apply_mutations, Hk.
  - intros -> -> ->. rewrite Hb1 in Hb2. injection Hb2 as <-.
    rewrite entities_committed. apply apply_mutations_twice.
Qed.

Lemma Store_twice_upserts_witness :
  Store_Store no_faults examples.empty_store examples.repo "md5"
    [[examples.file1]] [[examples.node1]] = Return (examples.stored1, None)
  /\ Store_Store no_faults examples.stored1 examples.repo "md5"
       [[examples.file1]] [[examples.node2]] = Return (examples.stored12, None)
  /\ exists records2,
       commits (dsCl examples.stored12)
       = commits (dsCl examples.stored1) ++ [records2]
       /\ entities (dsCl examples.stored12) !! Store_docKey examples.repo "md5"
          = Some (EDoc (repo_document examples.repo "md5"))
       /\ (forall k e, last_write k records2 = Some e ->
             (k, e) ∈ records2
             /\ entities (dsCl examples.stored12) !! k = Some e)
       /\ (forall k, k ∉ records2.*1 ->
             entities (dsCl examples.stored12) !! k
             = entities (dsCl examples.stored1) !! k)
       /\ (examples.repo = examples.repo ->
           [[examples.file1]] = [[examples.file1]] ->
           [[examples.node2]] = [[examples.node1]] ->
           entities (dsCl examples.stored12) = entities (dsCl examples.stored1)).
Proof.
  assert (H1 : Store_Store no_faults examples.empty_store examples.repo "md5"
                 [[examples.file1]] [[examples.node1]]
               = Return (examples.stored1, None)) by reflexivity.
  assert (H2 : Store_Store no_faults examples.stored1 examples.repo "md5"
                 [[examples.file1]] [[examples.node2]]
               = Return (examples.stored12, None)) by reflexivity.
  split; [exact H1|]. split; [exact H2|].
  exact (Store_twice_upserts no_faults no_faults examples.empty_store
           examples.stored1 examples.stored12 examples.repo examples.repo "md5"
           [[examples.file1]] [[examples.file1]] [[examples.node1]]
           [[examples.node2]] eq_refl eq_refl H1 H2).
Defined.

(** C5, as stated, fails: after a second call for the same triple with
    another tree, the tree-node and bucket-result records of the first call
    are still in the store, next to those of the second. *)
Lemma Store_twice_keeps_old_records :
  Store_Store no_faults examples.empty_store examples.repo "md5"
    [[examples.file1]] [[examples.node1]] = Return (examples.stored1, None)
  /\ Store_Store no_faults examples.stored1 examples.repo "md5"
       [[examples.file1]] [[examples.node2]] = Return (examples.stored12, None)
  /\ entities (dsCl examples.stored12) !! treeKey examples.docKey "md5" examples.node1
     = Some (ETree examples.node1)
  /\ entities (dsCl examples.stored12) !! treeKey examples.docKey "md5" examples.node2
     = Some (ETree examples.node2)
  /\ ~ (exists layer, layer ∈ [[examples.node2]] /\ examples.node1 ∈ layer).
Proof.
  split; [reflexivity|]. split; [reflexivity|].
  split; [vm_compute; reflexivity|]. split; [vm_compute; reflexivity|].
  intros (layer & Hlayer & Hnode).
  apply list_elem_of_singleton in Hlayer as ->.
  apply list_elem_of_singleton in Hnode. discriminate Hnode.
Qed.

End overwrite.

(** ** [Exists] *)

Section existence.

Implicit Types (env : Faults) (s : Store) (addr hashType : string).
Implicit Types (hash : plumbing.Hash).

(** The name and key [Exists] looks up. *)
Lemma Exists_unfold env s addr hashType hash :
  Store_Exists env s addr hashType hash
  = let name :=
      fmt.Sprintf docKeyFmt
        [fmt.AString addr; fmt.AString hashType; fmt.AHash hash] in
    match cache s !! name with
    | Some _ => (s, (true, None))
    | None =>
        let cl := (Get env (NameKey docKind name None) (dsCl s)).1 in
        match (Get env (NameKey docKind name None) (dsCl s)).2 with
        | Some err =>
            if decide (err = ErrNoSuchEntity)
            then ({| dsCl := cl; cache := cache s |}, (false, None))
            else ({| dsCl := cl; cache := cache s |}, (false, Some err))
        | None =>
            ({| dsCl := cl; cache := <[name := true]> (cache s) |}, (true, None))
        end
    end.
Proof.
  unfold Store_Exists. cbv zeta. destruct (cache s !! _); [reflexivity|].
  now destruct (Get env _ (dsCl s)) as [cl [err|]].
Qed.

(** X7.  Once [Exists] has answered true, the name is in the session's map: the
    next call answers true and leaves the client, its lookups included, as
    it was. *)
Lemma Exists_true_is_cached env env' s s' addr hashType hash :
  Store_Exists env s addr hashType hash = (s', (true, None)) ->
  Store_Exists env' s' addr hashType hash = (s', (true, None)).
Proof.
  rewrite !Exists_unfold. cbv zeta.
  set (name := fmt.Sprintf _ _).
  destruct (cache s !! name) as [b|] eqn:Hc.
  - intros H. injection H as <-. now rewrite Hc.
  - destruct (Get env _ (dsCl s)).2 as [err|].
    + destruct (decide (err = ErrNoSuchEntity)); discriminate.
    + intros H. injection H as <-. simpl. now rewrite lookup_insert_eq.
Qed.

(** C6, on the code.  [Store] writes the document under the hex text of the
    commit bytes; [Exists] passes the commit as a [plumbing.Hash], whose
    [String()] text is what [%x] encodes, and so looks up another name: right
    after a successful [Store] of a triple, [Exists] of the same triple finds
    nothing and answers (false, nil). *)
Theorem Exists_after_Store_not_found :
  Store_Store no_faults examples.empty_store examples.repo "md5"
    [[examples.file1]] [[examples.node1]] = Return (examples.stored1, None)
  /\ (Store_Exists no_faults examples.stored1
        (preparation.Addr examples.repo) "md5"
        (preparation.Commit examples.repo)).2 = (false, None)
  /\ docName (preparation.Addr examples.repo) "md5"
       (preparation.Commit examples.repo)
     = "https://github.com/madler/zlib-md5-abababababababababababababababababababab"
  /\ fmt.Sprintf docKeyFmt
       [fmt.AString (preparation.Addr examples.repo); fmt.AString "md5";
        fmt.AHash (preparation.Commit examples.repo)]
     = "https://github.com/madler/zlib-md5-"
         +:+ "6162616261626162616261626162616261626162"
         +:+ "6162616261626162616261626162616261626162".
Proof.
  split; [reflexivity|]. split; [vm_compute; reflexivity|].
  split; vm_compute; reflexivity.
Qed.

(** X19.  [Exists] answers (false, nil) exactly when the name it builds is
    not in the session's map and the lookup of the key it builds reports
    [ErrNoSuchEntity], which the store does when it holds nothing under that
    key; when the lookup fails with another error, [Exists] answers false with
    that error. *)
Theorem Exists_not_found_or_error env s addr hashType hash :
  let name :=
    fmt.Sprintf docKeyFmt
      [fmt.AString addr; fmt.AString hashType; fmt.AHash hash] in
  let key := NameKey docKind name None in
  ((Store_Exists env s addr hashType hash).2 = (false, None)
   <-> cache s !! name = None
       /\ (Get env key (dsCl s)).2 = Some ErrNoSuchEntity)
  /\ (forall err,
        cache s !! name = None ->
        (Get env key (dsCl s)).2 = Some err ->
        err <> ErrNoSuchEntity ->
        (Store_Exists env s addr hashType hash).2 = (false, Some err))
  /\ (get_fault env key = None ->
      ((Get env key (dsCl s)).2 = Some ErrNoSuchEntity
       <-> entities (dsCl s) !! key = None)).
Proof.
  intros name key. rewrite Exists_unfold. cbv zeta. fold name. fold key.
  split; [|split].
  - destruct (cache s !! name) as [b|].
    + split; [discriminate | intros [H _]; discriminate].
    + destruct (Get env key (dsCl s)).2 as [err|].
      * destruct (decide (err = ErrNoSuchEntity)) as [->|Hne]; simpl.
        -- now split.
        -- split; [discriminate | intros [_ H]; congruence].
      * simpl. split; [discriminate | intros [_ H]; discriminate].
  - intros err -> -> Hne. now rewrite decide_False.
  - intros Hfault. unfold Get. rewrite Hfault.
    destruct (entities (dsCl s) !! key); simpl; split; congruence.
Qed.

End existence.

(** ** The datastore remover *)

Section remover_facts.

Import remover.

Lemma ascii_compare_N (a b : ascii) :
  Ascii.compare a b = N.compare (N_of_ascii a) (N_of_ascii b).
Proof. reflexivity. Qed.

Lemma ascii_compare_Eq (a b : ascii) : Ascii.compare a b = Eq -> a = b.
Proof.
  rewrite ascii_compare_N. intros H. apply N.compare_eq in H.
  rewrite <- (ascii_N_embedding a), <- (ascii_N_embedding b). now rewrite H.
Qed.

Lemma ascii_compare_refl (a : ascii) : Ascii.compare a a = Eq.
Proof. rewrite ascii_compare_N. apply N.compare_refl. Qed.

Lemma ascii_compare_Lt_trans (a b c : ascii) :
  Ascii.compare a b = Lt -> Ascii.compare b c = Lt -> Ascii.compare a c = Lt.
Proof.
  rewrite !ascii_compare_N, !N.compare_lt_iff. apply N.lt_trans.
Qed.

(** The byte order on strings is transitive. *)
Lemma string_compare_Lt_trans (s1 s2 s3 : string) :
  String.compare s1 s2 = Lt -> String.compare s2 s3 = Lt ->
  String.compare s1 s3 = Lt.
Proof.
  revert s2 s3. induction s1 as [|c1 s1 IH]; intros [|c2 s2] [|c3 s3];
    simpl; try congruence.
  destruct (Ascii.compare c1 c2) eqn:H12; try discriminate;
    destruct (Ascii.compare c2 c3) eqn:H23; try discriminate; intros Ha Hb.
  - apply ascii_compare_Eq in H12, H23. subst c2 c3.
    rewrite ascii_compare_refl. now apply (IH s2).
  - apply ascii_compare_Eq in H12. subst c2. now rewrite H23.
  - apply ascii_compare_Eq in H23. subst c3. now rewrite H12.
  - now rewrite (ascii_compare_Lt_trans _ _ _ H12 H23).
Qed.

Lemma string_ltb_trans (s1 s2 s3 : string) :
  String.ltb s1 s2 = true -> String.ltb s2 s3 = true -> String.ltb s1 s3 = true.
Proof.
  unfold String.ltb.
  destruct (String.compare s1 s2) eqn:H12; try discriminate.
  destruct (String.compare s2 s3) eqn:H23; try discriminate.
  now rewrite (string_compare_Lt_trans _ _ _ H12 H23).
Qed.

(** The sixteen thresholds, in increasing order. *)
Lemma thresholds :
  iStr <$> workers
  = ["0"; "1"; "2"; "3"; "4"; "5"; "6"; "7";
     "8"; "9"; "a"; "b"; "c"; "d"; "e"; "f"].
Proof. reflexivity. Qed.

Lemma thresholds_increase_check :
  forallb (fun i =>
    forallb (fun j => implb (Z.ltb i j) (String.ltb (iStr i) (iStr j))) workers)
    workers = true.
Proof. vm_compute. reflexivity. Qed.

Lemma thresholds_increase i j :
  i ∈ workers -> j ∈ workers -> (i < j)%Z ->
  String.ltb (iStr i) (iStr j) = true.
Proof.
  intros Hi Hj Hlt. apply list_elem_of_In in Hi, Hj.
  pose proof thresholds_increase_check as H.
  rewrite forallb_forall in H. specialize (H i Hi).
  rewrite forallb_forall in H. specialize (H j Hj).
  apply Z.ltb_lt in Hlt. now rewrite Hlt in H.
Qed.

(** The ranges are nested: what a worker selects, every worker with a lower
    number selects too. *)
Lemma ranges_nested i j commit :
  i ∈ workers -> j ∈ workers -> (i <= j)%Z ->
  selects j commit = true -> selects i commit = true.
Proof.
  intros Hi Hj Hle Hsel. destruct (decide (i = j)) as [->|Hne]; [exact Hsel|].
  unfold selects in *.
  apply (string_ltb_trans _ (iStr j)); [|exact Hsel].
  apply thresholds_increase; [assumption..|lia].
Qed.

Lemma divisor_nonzero cfg :
  (1 <= batchSize cfg < 2 ^ 63)%Z -> wrap64 (batchSize cfg * 10) <> 0%Z.
Proof.
  intros Hb H. unfold wrap64 in H.
  set (b := batchSize cfg) in *.
  pose proof (Z.div_mod (b * 10 + 2 ^ 63) (2 ^ 64) ltac:(lia)) as Hdm.
  set (q := ((b * 10 + 2 ^ 63) / 2 ^ 64)%Z) in *.
  assert (Hq : (b * 5 = 2 ^ 63 * q)%Z) by lia.
  assert (Hdiv : (2 ^ 63 | 5 * b)%Z) by (exists q; lia).
  apply Z.gauss in Hdiv; [|reflexivity].
  destruct Hdiv as [k Hk]. lia.
Qed.

(** One batch: the keys are deleted, then the worker sleeps. *)
Lemma deleteBatch_calls cfg delete_fault keys w :
  delete_fault keys = None ->
  wrap64 (batchSize cfg * 10) <> 0%Z ->
  exists w',
    deleteBatch cfg delete_fault keys w = Done w'
    /\ calls w' = calls w ++ [DeleteMulti keys; Sleep (sleep_time cfg)].
Proof.
  intros Hdel Hdiv. unfold deleteBatch. rewrite Hdel.
  rewrite decide_False by assumption. eexists. split; reflexivity.
Qed.

(** The loop of a worker cuts the keys it is given into batches. *)
Lemma worker_loop_batches cfg delete_fault keys batch w :
  (1 <= batchSize cfg < 2 ^ 63)%Z ->
  (forall ks, delete_fault ks = None) ->
  (Z.of_nat (length batch) < batchSize cfg)%Z ->
  exists batches w',
    worker_loop cfg delete_fault (inl <$> keys) batch w = Done w'
    /\ calls w' = calls w ++ batch_calls cfg batches
    /\ concat batches = batch ++ keys
    /\ Forall (fun b => (1 <= Z.of_nat (length b) <= batchSize cfg)%Z) batches
    /\ (forall i b, batches !! i = Some b -> S i < length batches ->
                    Z.of_nat (length b) = batchSize cfg).
Proof.
  intros Hb Hdel. pose proof (divisor_nonzero cfg Hb) as Hdiv.
  revert batch w. induction keys as [|key keys IH]; intros batch w Hlen.
  - cbn [fmap list_fmap worker_loop].
    destruct (decide (0 < length batch)) as [Hpos|Hzero].
    + destruct (deleteBatch_calls cfg delete_fault batch w (Hdel _) Hdiv)
        as (w' & -> & Hcalls).
      exists [batch], w'. split; [reflexivity|]. split; [exact Hcalls|].
      split; [simpl; now rewrite !app_nil_r|]. split.
      * constructor; [lia | constructor].
      * intros i b _ Hi. simpl in Hi. lia.
    + exists [], w. split; [reflexivity|]. split; [simpl; now rewrite app_nil_r|].
      destruct batch; [|simpl in Hzero; lia].
      split; [reflexivity|]. split; [constructor|]. intros i b Hi. discriminate Hi.
  - cbn [fmap list_fmap worker_loop]. cbv zeta.
    destruct (decide (batchSize cfg <= Z.of_nat (length (batch ++ [key])))%Z)
      as [Hfull|Hroom].
    + destruct (deleteBatch_calls cfg delete_fault (batch ++ [key]) w (Hdel _) Hdiv)
        as (w1 & -> & Hcalls1).
      destruct (IH [] w1) as (batches & w' & Hrun & Hcalls & Hcat & Hsizes & Hfullb);
        [simpl; lia|].
      exists ((batch ++ [key]) :: batches), w'.
      split; [exact Hrun|]. split.
      { rewrite Hcalls, Hcalls1. unfold batch_calls. rewrite bind_cons.
        now rewrite <- app_assoc. }
      split; [simpl; rewrite Hcat; simpl; now rewrite <- app_assoc|].
      rewrite length_app in Hfull. simpl in Hfull.
      split.
      * constructor; [rewrite length_app; simpl; lia | exact Hsizes].
      * intros [|i] b Hi Hlt; simpl in Hi.
        -- injection Hi as <-. rewrite length_app. simpl. lia.
        -- apply (Hfullb i b Hi). simpl in Hlt. lia.
    + destruct (IH (batch ++ [key]) w) as (batches & w' & Hrun & Hrest); [lia|].
      exists batches, w'. split; [exact Hrun|].
      now rewrite <- app_assoc in Hrest.
Qed.

(** C8, as amended.  The remover starts 16 workers; worker [i] scans the keys
    whose [commit] is greater than the one-digit hexadecimal text of [i],
    without an upper bound, so the ranges are nested and not disjoint: a key
    selected by worker [j] is selected by every worker [i <= j].  With a
    batch size of at least 1 and no error from the store, a worker deletes the
    keys it scans in order, in batches of [batch_size] keys and a shorter last
    one, and sleeps [wait_ms] milliseconds after each batch. *)
Theorem remover_workers cfg delete_fault i j commit w :
  (1 <= batchSize cfg < 2 ^ 63)%Z ->
  (forall ks, delete_fault ks = None) ->
  i ∈ workers -> j ∈ workers -> (i <= j)%Z ->
  length workers = 16
  /\ iStr <$> workers
     = ["0"; "1"; "2"; "3"; "4"; "5"; "6"; "7";
        "8"; "9"; "a"; "b"; "c"; "d"; "e"; "f"]
  /\ (selects j commit = true -> selects i commit = true)
  /\ exists batches w',
       worker cfg delete_fault i w = Done w'
       /\ calls w' = calls w ++ batch_calls cfg batches
       /\ concat batches = scanned i w
       /\ Forall (fun b => (1 <= Z.of_nat (length b) <= batchSize cfg)%Z) batches
       /\ (forall n b, batches !! n = Some b -> S n < length batches ->
                       Z.of_nat (length b) = batchSize cfg).
Proof.
  intros Hb Hdel Hi Hj Hle.
  split; [reflexivity|]. split; [reflexivity|].
  split; [now apply ranges_nested|].
  unfold worker, Run, scanned.
  destruct (worker_loop_batches cfg delete_fault
              (filter (fun e => selects i e.2 = true) (index w)).*1 [] w Hb Hdel)
    as (batches & w' & Hrun & Hrest); [simpl; lia|].
  exists batches, w'. split; [|exact Hrest].
  rewrite <- Hrun. f_equal. now rewrite <- list_fmap_compose.
Qed.

Lemma remover_workers_witness :
  (1 <= batchSize default_flags < 2 ^ 63)%Z
  /\ (forall ks, no_delete_fault ks = None)
  /\ 0%Z ∈ workers /\ 1%Z ∈ workers /\ (0 <= 1)%Z
  /\ length workers = 16
  /\ iStr <$> workers
     = ["0"; "1"; "2"; "3"; "4"; "5"; "6"; "7";
        "8"; "9"; "a"; "b"; "c"; "d"; "e"; "f"]
  /\ (selects 1 "5a" = true -> selects 0 "5a" = true)
  /\ exists batches w',
       worker default_flags no_delete_fault 0 sample_world = Done w'
       /\ calls w' = calls sample_world ++ batch_calls default_flags batches
       /\ concat batches = scanned 0 sample_world
       /\ Forall (fun b => (1 <= Z.of_nat (length b)
                               <= batchSize default_flags)%Z) batches
       /\ (forall n b, batches !! n = Some b -> S n < length batches ->
                       Z.of_nat (length b) = batchSize default_flags).
Proof.
  assert (H1 : (1 <= batchSize default_flags < 2 ^ 63)%Z) by (simpl; lia).
  assert (H2 : forall ks, no_delete_fault ks = None) by reflexivity.
  assert (H3 : 0%Z ∈ workers) by (vm_compute; apply list_elem_of_here).
  assert (H4 : 1%Z ∈ workers)
    by (vm_compute; apply list_elem_of_further, list_elem_of_here).
  assert (H5 : (0 <= 1)%Z) by lia.
  split; [exact H1|]. split; [exact H2|]. split; [exact H3|].
  split; [exact H4|]. split; [exact H5|].
  exact (remover_workers default_flags no_delete_fault 0 1 "5a" sample_world
           H1 H2 H3 H4 H5).
Defined.

(** C8, as stated, fails: the ranges of two workers overlap, and both scan
    the same key. *)
Lemma remover_ranges_overlap :
  ~ (forall i j commit,
       i ∈ workers -> j ∈ workers -> i <> j ->
       ~ (selects i commit = true /\ selects j commit = true))
  /\ inl (sample_key "c") ∈ Run 0 sample_world
  /\ inl (sample_key "c") ∈ Run 1 sample_world.
Proof.
  split; [|split].
  - intros H. apply (H 0%Z 1%Z "5a").
    + vm_compute. apply list_elem_of_here.
    + vm_compute. apply list_elem_of_further, list_elem_of_here.
    + discriminate.
    + split; reflexivity.
  - vm_compute. do 2 apply list_elem_of_further. apply list_elem_of_here.
  - vm_compute. apply list_elem_of_further, list_elem_of_here.
Qed.

End remover_facts.

(** ** Texts of keys: no two records of a call share a key by accident *)

Section key_texts.

Implicit Types (s r : string) (c : ascii) (b : list byte).

Lemma append_length s r : String.length (s +:+ r) = String.length s + String.length r.
Proof.
  induction s as [|c s IH]; [reflexivity|].
  change (S (String.length (s +:+ r)) = S (String.length s) + String.length r).
  now rewrite IH.
Qed.

Lemma append_cancel_l s r1 r2 : s +:+ r1 = s +:+ r2 -> r1 = r2.
Proof.
  induction s as [|c s IH]; [trivial|].
  change (String c (s +:+ r1) = String c (s +:+ r2) -> r1 = r2).
  intros H. injection H as H. now apply IH.
Qed.

(** Two texts cut at the first occurrence of [c] agree part by part. *)
Lemma split_at_first c s1 s2 r1 r2 :
  lacks c s1 -> lacks c s2 ->
  s1 +:+ String c r1 = s2 +:+ String c r2 -> s1 = s2 /\ r1 = r2.
Proof.
  revert s2. induction s1 as [|a s1 IH]; intros [|a2 s2] H1 H2.
  - intros H. injection H as ->. now split.
  - change (String c r1 = String a2 (s2 +:+ String c r2) -> "" = String a2 s2 /\ r1 = r2).
    intros H. injection H as <- _. now destruct H2.
  - change (String a (s1 +:+ String c r1) = String c r2 -> String a s1 = "" /\ r1 = r2).
    intros H. injection H as -> _. now destruct H1.
  - change (String a (s1 +:+ String c r1) = String a2 (s2 +:+ String c r2)
            -> String a s1 = String a2 s2 /\ r1 = r2).
    intros H. injection H as <- H. destruct H1 as [_ H1], H2 as [_ H2].
    destruct (IH s2 H1 H2 H) as [-> ->]. now split.
Qed.

Lemma hex_round_trip_byte (v : byte) :
  (a ← hex.fromHexChar (hex.digit (N.shiftr (Byte.to_N v) 4));
   b ← hex.fromHexChar (hex.digit (N.land (Byte.to_N v) 15));
   Byte.of_N (N.lor (N.shiftl a 4) b)) = Some v.
Proof. destruct v; reflexivity. Qed.

(** [hex.DecodeString] undoes [hex.EncodeToString]. *)
Lemma hex_round_trip b : hex.DecodeString (hex.EncodeToString b) = Some b.
Proof.
  induction b as [|v b IH]; [reflexivity|].
  cbn [hex.EncodeToString hex.DecodeString].
  pose proof (hex_round_trip_byte v) as Hv.
  destruct (hex.fromHexChar (hex.digit (N.shiftr (Byte.to_N v) 4))) as [a|];
    [|discriminate].
  destruct (hex.fromHexChar (hex.digit (N.land (Byte.to_N v) 15))) as [b'|];
    [|discriminate].
  cbn in Hv |- *. rewrite Hv. cbn. rewrite IH. reflexivity.
Qed.

Lemma hex_inj b1 b2 : hex.EncodeToString b1 = hex.EncodeToString b2 -> b1 = b2.
Proof.
  intros H. apply (f_equal hex.DecodeString) in H.
  rewrite !hex_round_trip in H. now injection H.
Qed.

Lemma hex_digit_no_dash (v : byte) :
  hex.digit (N.shiftr (Byte.to_N v) 4) <> "-"%char
  /\ hex.digit (N.land (Byte.to_N v) 15) <> "-"%char.
Proof. destruct v; split; discriminate. Qed.

Lemma hex_lacks_dash b : lacks "-" (hex.EncodeToString b).
Proof.
  induction b as [|v b IH]; [exact I|].
  destruct (hex_digit_no_dash v) as [H1 H2]. simpl. auto.
Qed.

Lemma hex_length b : String.length (hex.EncodeToString b) = 2 * length b.
Proof. induction b as [|v b IH]; simpl; [reflexivity | rewrite IH; lia]. Qed.

Lemma pretty_N_char_no_dash (x : N) : pretty_N_char x <> "-"%char.
Proof. unfold pretty_N_char. repeat case_match; discriminate. Qed.

Lemma pretty_N_go_lacks_dash (x : N) s :
  lacks "-" s -> lacks "-" (pretty_N_go x s).
Proof.
  revert s. induction (N.lt_wf_0 x) as [x _ IH]; intros s Hs.
  assert (x = 0 \/ 0 < x)%N as [->|Hpos] by lia.
  - now rewrite pretty_N_go_0.
  - rewrite pretty_N_go_step by assumption. apply IH.
    + now apply N.div_lt.
    + split; [apply pretty_N_char_no_dash | exact Hs].
Qed.

Lemma pretty_N_go_nonempty (x : N) s : s <> "" -> pretty_N_go x s <> "".
Proof.
  revert s. induction (N.lt_wf_0 x) as [x _ IH]; intros s Hs.
  assert (x = 0 \/ 0 < x)%N as [->|Hpos] by lia.
  - now rewrite pretty_N_go_0.
  - rewrite pretty_N_go_step by assumption. apply IH.
    + now apply N.div_lt.
    + discriminate.
Qed.

(** The decimal text of a natural number: digits only, at least one. *)
Lemma pretty_N_digits (x : N) : lacks "-" (pretty x) /\ pretty x <> "".
Proof.
  unfold pretty, pretty_N. destruct (decide (x = 0%N)) as [->|Hx].
  - split; [simpl; split; [discriminate | exact I] | discriminate].
  - split; [now apply pretty_N_go_lacks_dash|].
    rewrite pretty_N_go_step by lia. apply pretty_N_go_nonempty. discriminate.
Qed.

(** The text [%d] prints: the digits of the absolute value, after a dash when
    the number is negative. *)
Lemma pretty_Z_sign (z : Z) :
  exists digits,
    lacks "-" digits /\ digits <> ""
    /\ pretty z = if decide (z < 0)%Z then String "-" digits else digits.
Proof.
  destruct z as [|p|p].
  - exists "0". split; [simpl; split; [discriminate | exact I]|].
    split; [discriminate | reflexivity].
  - exists (pretty (Npos p)). destruct (pretty_N_digits (Npos p)) as [H1 H2].
    split; [exact H1|]. split; [exact H2|]. reflexivity.
  - exists (pretty (Npos p)). destruct (pretty_N_digits (Npos p)) as [H1 H2].
    split; [exact H1|]. split; [exact H2|]. reflexivity.
Qed.

Lemma pretty_Z_dash_split (z1 z2 : Z) r1 r2 :
  pretty z1 +:+ String "-" r1 = pretty z2 +:+ String "-" r2 ->
  z1 = z2 /\ r1 = r2.
Proof.
  destruct (pretty_Z_sign z1) as (d1 & Hl1 & Hn1 & E1).
  destruct (pretty_Z_sign z2) as (d2 & Hl2 & Hn2 & E2).
  intros H.
  assert (Hgoal : pretty z1 = pretty z2 /\ r1 = r2).
  { rewrite E1, E2 in H |- *.
    destruct (decide (z1 < 0)%Z), (decide (z2 < 0)%Z).
    - change (String "-" (d1 +:+ String "-" r1) = String "-" (d2 +:+ String "-" r2))
        in H.
      injection H as H. destruct (split_at_first _ _ _ _ _ Hl1 Hl2 H) as [-> ->].
      now split.
    - destruct d2 as [|a d2]; [congruence|].
      change (String "-" (d1 +:+ String "-" r1) = String a (d2 +:+ String "-" r2))
        in H.
      injection H as <- _. now destruct Hl2.
    - destruct d1 as [|a d1]; [congruence|].
      change (String a (d1 +:+ String "-" r1) = String "-" (d2 +:+ String "-" r2))
        in H.
      injection H as -> _. now destruct Hl1.
    - destruct (split_at_first _ _ _ _ _ Hl1 Hl2 H) as [-> ->]. now split. }
  destruct Hgoal as [Hp ->]. split; [|reflexivity].
  now apply (inj pretty).
Qed.

End key_texts.

(** ** Keys tell records apart, and what is stored can be read back *)

Section key_injectivity.

Implicit Types (docKey : Key) (hashType : string).
Implicit Types (node : processing.TreeNode) (r : result).

Lemma treeKey_eq_inv docKey hashType node1 node2 :
  treeKey docKey hashType node1 = treeKey docKey hashType node2 ->
  processing.NodeHash node1 = processing.NodeHash node2
  /\ processing.FilesContained node1 = processing.FilesContained node2
  /\ processing.Height node1 = processing.Height node2.
Proof.
  rewrite !treeKey_text. intros H. injection H as H.
    change (hex.EncodeToString (processing.NodeHash node1)
              +:+ String "-" (hashType +:+ String "-"
                    (pretty (processing.FilesContained node1)
                       +:+ String "-" (pretty (processing.Height node1))))
            = hex.EncodeToString (processing.NodeHash node2)
                +:+ String "-" (hashType +:+ String "-"
                      (pretty (processing.FilesContained node2)
                         +:+ String "-" (pretty (processing.Height node2))))) in H.
  apply split_at_first in H as [Hhash H]; [|apply hex_lacks_dash..].
  apply append_cancel_l in H. injection H as H.
  apply pretty_Z_dash_split in H as [Hfiles Hheight].
  split; [now apply hex_inj|]. split; [exact Hfiles|].
  now apply (inj pretty).
Qed.

(** X1.  Two tree nodes get the same key under a document exactly when they
    agree on hash, file count and height. *)
Theorem treeKey_same_iff docKey hashType node1 node2 :
  treeKey docKey hashType node1 = treeKey docKey hashType node2
  <-> processing.NodeHash node1 = processing.NodeHash node2
      /\ processing.FilesContained node1 = processing.FilesContained node2
      /\ processing.Height node1 = processing.Height node2.
Proof.
  split.
  - apply treeKey_eq_inv.
  - intros (H1 & H2 & H3). unfold treeKey. now rewrite H1, H2, H3.
Qed.

Lemma resultKey_eq_inv docKey hashType r1 r2 :
  resultKey docKey hashType r1 = resultKey docKey hashType r2 ->
  BucketHash r1 = BucketHash r2.
Proof.
  rewrite !resultKey_text. intros H. injection H as H.
  change (hex.EncodeToString (BucketHash r1) +:+ String "-" hashType
          = hex.EncodeToString (BucketHash r2) +:+ String "-" hashType) in H.
  apply split_at_first in H as [Hhash _]; [|apply hex_lacks_dash..].
  now apply hex_inj.
Qed.

(** X2.  Two results get the same key under a document exactly when their
    bucket hashes are equal. *)
Theorem resultKey_same_iff docKey hashType r1 r2 :
  resultKey docKey hashType r1 = resultKey docKey hashType r2
  <-> BucketHash r1 = BucketHash r2.
Proof.
  split.
  - apply resultKey_eq_inv.
  - intros H. unfold resultKey. now rewrite H.
Qed.

(** X3.  For one address and hash type, the document key determines the
    commit. *)
Theorem docKey_same_iff (repoInfo1 repoInfo2 : preparation.Result) hashType :
  preparation.Addr repoInfo1 = preparation.Addr repoInfo2 ->
  (Store_docKey repoInfo1 hashType = Store_docKey repoInfo2 hashType
   <-> preparation.Commit repoInfo1 = preparation.Commit repoInfo2).
Proof.
  intros Haddr. unfold Store_docKey. rewrite !docName_text, Haddr. split.
  - intros H. injection H as H.
    apply append_cancel_l in H.
    change (String "-" (hashType +:+ String "-"
                          (hex.EncodeToString (preparation.Commit repoInfo1)))
            = String "-" (hashType +:+ String "-"
                            (hex.EncodeToString (preparation.Commit repoInfo2)))) in H.
    injection H as H. apply append_cancel_l in H. injection H as H.
    now apply hex_inj.
  - now intros ->.
Qed.

Lemma docKey_same_iff_witness :
  preparation.Addr examples.repo = preparation.Addr examples.repo
  /\ (Store_docKey examples.repo "md5" = Store_docKey examples.repo "md5"
      <-> preparation.Commit examples.repo = preparation.Commit examples.repo).
Proof.
  split; [reflexivity|].
  exact (docKey_same_iff examples.repo examples.repo "md5" eq_refl).
Defined.

Lemma written_key docKey doc hashType results treeNodes key :
  key ∈ (Store_records docKey doc hashType results treeNodes).*1 ->
  forall m,
  exists e,
    (key, e) ∈ Store_records docKey doc hashType results treeNodes
    /\ apply_mutations (Store_records docKey doc hashType results treeNodes) m
         !! key = Some e.
Proof.
  intros Hkey m. rewrite lookup_apply_mutations.
  destruct (last_write key _) as [e|] eqn:Hlast.
  - exists e. split; [now apply last_write_Some | reflexivity].
  - apply last_write_None in Hlast. contradiction.
Qed.

(** X4.  After a successful [Store], the document, every result and every
    tree node with files can be read back under its key; the record found under a
    result key has that bucket hash, and the record found under a tree key has
    that hash, file count and height. *)
Theorem Store_read_back env s repoInfo hashType bucketResults treeNodes s' :
  Store_Store env s repoInfo hashType bucketResults treeNodes = Return (s', None) ->
  let docKey := Store_docKey repoInfo hashType in
  entities (dsCl s') !! docKey = Some (EDoc (repo_document repoInfo hashType))
  /\ (forall baseTreeLayer doc results r,
        treeNodes !! 0 = Some baseTreeLayer ->
        newDoc repoInfo hashType bucketResults baseTreeLayer = Return (doc, results) ->
        r ∈ results ->
        exists r',
          entities (dsCl s') !! resultKey docKey hashType r = Some (EResult r')
          /\ BucketHash r' = BucketHash r)
  /\ (forall layer node,
        layer ∈ treeNodes -> node ∈ layer ->
        processing.FilesContained node <> 0%Z ->
        exists node',
          entities (dsCl s') !! treeKey docKey hashType node = Some (ETree node')
          /\ processing.NodeHash node' = processing.NodeHash node
          /\ processing.FilesContained node' = processing.FilesContained node
          /\ processing.Height node' = processing.Height node).
Proof.
  intros H docKey. apply Store_committed in H as (base & Hbase & Hle & ->).
  fold docKey. rewrite entities_committed.
  set (doc := repo_document repoInfo hashType).
  set (results := group_results bucketResults base).
  split; [|split].
  - now rewrite lookup_apply_mutations, last_write_docKey.
  - intros base' doc' results' r Hbase' Hdoc Hr.
    rewrite Hbase in Hbase'. injection Hbase' as <-.
    rewrite newDoc_cases, decide_True in Hdoc by assumption.
    injection Hdoc as <- <-.
    destruct (written_key docKey doc hashType results treeNodes
                (resultKey docKey hashType r)) with (m := entities (dsCl s))
      as (e & Hin & Hlook).
    { apply list_elem_of_fmap. exists (resultKey docKey hashType r, EResult r).
      split; [reflexivity|]. unfold Store_records.
      apply elem_of_cons. right. apply elem_of_app. left.
      apply list_elem_of_fmap. now exists r. }
    unfold Store_records in Hin.
    apply elem_of_cons in Hin as [Hin|Hin]; [|apply elem_of_app in Hin as [Hin|Hin]].
    + apply (f_equal fst) in Hin. simpl in Hin.
      unfold resultKey, docKey, Store_docKey in Hin. discriminate Hin.
    + apply list_elem_of_fmap in Hin as (r' & Heq & _).
      pose proof (f_equal fst Heq) as Hk. apply (f_equal snd) in Heq.
      simpl in Hk, Heq. subst e.
      exists r'. split; [exact Hlook|]. symmetry. now apply resultKey_eq_inv in Hk.
    + apply elem_of_layer_records in Hin as (_ & node & _ & _ & _ & Hk & _).
      unfold resultKey, treeKey in Hk. discriminate Hk.
  - intros layer node Hlayer Hnode Hfiles.
    destruct (written_key docKey doc hashType results treeNodes
                (treeKey docKey hashType node)) with (m := entities (dsCl s))
      as (e & Hin & Hlook).
    { apply list_elem_of_fmap. exists (treeKey docKey hashType node, ETree node).
      split; [reflexivity|]. apply tree_record_in_records, elem_of_layer_records.
      now exists layer, node. }
    unfold Store_records in Hin.
    apply elem_of_cons in Hin as [Hin|Hin]; [|apply elem_of_app in Hin as [Hin|Hin]].
    + apply (f_equal fst) in Hin. simpl in Hin.
      unfold treeKey, docKey, Store_docKey in Hin. discriminate Hin.
    + apply list_elem_of_fmap in Hin as (r' & Heq & _).
      apply (f_equal fst) in Heq. simpl in Heq.
      unfold resultKey, treeKey in Heq. discriminate Heq.
    + apply elem_of_layer_records in Hin as (_ & node' & _ & _ & _ & Hk & ->).
      exists node'. split; [exact Hlook|].
      apply treeKey_eq_inv in Hk as (H1 & H2 & H3). now repeat split.
Qed.

Lemma Store_read_back_witness :
  Store_Store no_faults examples.empty_store examples.repo "md5"
    [[examples.file1]] [[examples.node1]] = Return (examples.stored1, None)
  /\ entities (dsCl examples.stored1) !! Store_docKey examples.repo "md5"
     = Some (EDoc (repo_document examples.repo "md5")).
Proof.
  assert (H : Store_Store no_faults examples.empty_store examples.repo "md5"
                [[examples.file1]] [[examples.node1]]
              = Return (examples.stored1, None)) by reflexivity.
  split; [exact H|].
  exact (proj1 (Store_read_back no_faults examples.empty_store examples.repo
                  "md5" [[examples.file1]] [[examples.node1]] examples.stored1 H)).
Defined.

End key_injectivity.

(** ** [Exists]: what it asks and what it changes *)

Section exists_effects.

Implicit Types (env : Faults) (s : Store) (addr hashType : string).
Implicit Types (hash : plumbing.Hash).

Lemma list_byte_of_string_length (t : string) :
  length (list_byte_of_string t) = String.length t.
Proof.
  unfold list_byte_of_string. rewrite List.length_map.
  induction t as [|c t IH]; simpl; [reflexivity | now rewrite IH].
Qed.

(** For a commit of at least one byte, the name [Exists] looks up is not the
    name [Store] writes. *)
Lemma Exists_name_differs addr hashType hash :
  hash <> [] ->
  fmt.Sprintf docKeyFmt [fmt.AString addr; fmt.AString hashType; fmt.AHash hash]
  <> docName addr hashType hash.
Proof.
  intros Hne H. rewrite Exists_name_text, docName_text in H.
  apply append_cancel_l in H.
  change (String "-" (hashType +:+ String "-"
            (hex.EncodeToString (list_byte_of_string (hex.EncodeToString hash))))
          = String "-" (hashType +:+ String "-" (hex.EncodeToString hash))) in H.
  injection H as H. apply append_cancel_l in H. injection H as H.
  apply (f_equal String.length) in H.
  rewrite !hex_length, list_byte_of_string_length, hex_length in H.
  destruct hash; [congruence | simpl in H; lia].
Qed.

(** The key [Exists] looks up is none of the keys a [Store] of the same
    triple writes. *)
Lemma Exists_key_not_written (repoInfo : preparation.Result) hashType doc results
    treeNodes :
  preparation.Commit repoInfo <> [] ->
  NameKey docKind
    (fmt.Sprintf docKeyFmt
       [fmt.AString (preparation.Addr repoInfo); fmt.AString hashType;
        fmt.AHash (preparation.Commit repoInfo)]) None
  ∉ (Store_records (Store_docKey repoInfo hashType) doc hashType results
       treeNodes).*1.
Proof.
  intros Hne Hin. apply list_elem_of_fmap in Hin as ([k e] & Hk & Hin).
  simpl in Hk. subst k. unfold Store_records in Hin.
  apply elem_of_cons in Hin as [Hin|Hin]; [|apply elem_of_app in Hin as [Hin|Hin]].
  - apply (f_equal fst) in Hin. simpl in Hin. unfold Store_docKey in Hin.
    injection Hin as Hin. now apply Exists_name_differs in Hin.
  - apply list_elem_of_fmap in Hin as (r & Heq & _).
    apply (f_equal fst) in Heq. simpl in Heq. unfold resultKey in Heq.
    discriminate Heq.
  - apply elem_of_layer_records in Hin as (_ & node & _ & _ & _ & Heq & _).
    unfold treeKey in Heq. discriminate Heq.
Qed.

(** X5.  Whatever [Store] does for a triple whose commit has at least one byte,
    the answer of [Exists] for that triple is the one it would have given
    before the call. *)
Theorem Store_does_not_reach_Exists env env' s s' (repoInfo : preparation.Result)
    hashType bucketResults treeNodes err :
  preparation.Commit repoInfo <> [] ->
  Store_Store env s repoInfo hashType bucketResults treeNodes = Return (s', err) ->
  (Store_Exists env' s' (preparation.Addr repoInfo) hashType
     (preparation.Commit repoInfo)).2
  = (Store_Exists env' s (preparation.Addr repoInfo) hashType
       (preparation.Commit repoInfo)).2.
Proof.
  intros Hne H. destruct err as [e|].
  - now rewrite (Store_failed _ _ _ _ _ _ _ _ H).
  - apply Store_committed in H as (base & _ & _ & ->).
    rewrite !Exists_unfold. cbv zeta.
    set (name := fmt.Sprintf _ _). set (key := NameKey docKind name None).
    change (cache (committed s _)) with (cache s).
    destruct (cache s !! name); [reflexivity|].
    assert (HGet : (Get env' key (dsCl (committed s
                      (Store_records (Store_docKey repoInfo hashType)
                         (repo_document repoInfo hashType) hashType
                         (group_results bucketResults base) treeNodes)))).2
                   = (Get env' key (dsCl s)).2).
    { unfold Get. destruct (get_fault env' key); [reflexivity|].
      rewrite entities_committed, lookup_apply_mutations.
      pose proof (Exists_key_not_written repoInfo hashType
                    (repo_document repoInfo hashType)
                    (group_results bucketResults base) treeNodes Hne) as Hnot.
      apply last_write_None in Hnot. fold name in Hnot. fold key in Hnot.
      rewrite Hnot. now destruct (entities (dsCl s) !! key). }
    rewrite HGet. destruct (Get env' key (dsCl s)).2 as [e|]; [|reflexivity].
    now destruct (decide (e = ErrNoSuchEntity)).
Qed.

Lemma Store_does_not_reach_Exists_witness :
  preparation.Commit examples.repo <> []
  /\ Store_Store no_faults examples.empty_store examples.repo "md5"
       [[examples.file1]] [[examples.node1]] = Return (examples.stored1, None)
  /\ (Store_Exists no_faults examples.stored1 (preparation.Addr examples.repo)
        "md5" (preparation.Commit examples.repo)).2
     = (Store_Exists no_faults examples.empty_store
          (preparation.Addr examples.repo) "md5"
          (preparation.Commit examples.repo)).2.
Proof.
  assert (H1 : preparation.Commit examples.repo <> []) by discriminate.
  assert (H2 : Store_Store no_faults examples.empty_store examples.repo "md5"
                 [[examples.file1]] [[examples.node1]]
               = Return (examples.stored1, None)) by reflexivity.
  split; [exact H1|]. split; [exact H2|].
  exact (Store_does_not_reach_Exists no_faults no_faults examples.empty_store
           examples.stored1 examples.repo "md5" [[examples.file1]]
           [[examples.node1]] None H1 H2).
Defined.

(** X6.  [Exists] never writes: entities and commits stay as they are.  It asks
    the store once when the name is not in the session's map and not at all
    when it is.  An answer of false leaves the map as it was, so the next call
    asks again; an answer of true leaves the name in the map and changes no
    other entry. *)
Theorem Exists_effects env s addr hashType hash :
  let name :=
    fmt.Sprintf docKeyFmt
      [fmt.AString addr; fmt.AString hashType; fmt.AHash hash] in
  let key := NameKey docKind name None in
  let s' := (Store_Exists env s addr hashType hash).1 in
  let answer := (Store_Exists env s addr hashType hash).2.1 in
  entities (dsCl s') = entities (dsCl s)
  /\ commits (dsCl s') = commits (dsCl s)
  /\ lookups (dsCl s')
     = match cache s !! name with
       | Some _ => lookups (dsCl s)
       | None => lookups (dsCl s) ++ [key]
       end
  /\ (answer = false -> cache s' = cache s)
  /\ (answer = true ->
      is_Some (cache s' !! name)
      /\ forall other, other <> name -> cache s' !! other = cache s !! other).
Proof.
  intros name key s' answer. subst s' answer. rewrite Exists_unfold. cbv zeta.
  fold name. fold key.
  destruct (cache s !! name) as [b|] eqn:Hc.
  - simpl. split; [reflexivity|]. split; [reflexivity|]. split; [reflexivity|].
    split; [discriminate|]. intros _. split; [|reflexivity].
    rewrite Hc. now exists b.
  - unfold Get. cbv zeta.
    destruct (get_fault env key) as [e|]; simpl.
    + destruct (decide (e = ErrNoSuchEntity)); simpl;
        (split; [reflexivity|]; split; [reflexivity|]; split; [reflexivity|];
         split; [reflexivity | discriminate]).
    + destruct (entities (dsCl s) !! key); simpl.
      * split; [reflexivity|]. split; [reflexivity|]. split; [reflexivity|].
        split; [discriminate|]. intros _. split.
        -- rewrite lookup_insert_eq. now exists true.
        -- intros other Hother. now rewrite lookup_insert_ne.
      * split; [reflexivity|]. split; [reflexivity|]. split; [reflexivity|].
        split; [reflexivity | discriminate].
Qed.

End exists_effects.

(** ** [newResult]: paths and hashes stay aligned *)

Section results.

(** X8.  The two lists of a result have one entry per file of the group, the entry
    at each index being the path and the hash of the file at that index; the
    bucket hash is the one passed in. *)
Theorem newResult_aligned (results : list processing.FileResult)
    (bucketHash : list byte) :
  let r := newResult results bucketHash in
  BucketHash r = bucketHash
  /\ length (Path r) = length results
  /\ length (Hash r) = length results
  /\ forall i,
       Path r !! i = processing.Path <$> results !! i
       /\ Hash r !! i = processing.Hash <$> results !! i.
Proof.
  intros r. subst r. rewrite newResult_fields. simpl.
  split; [reflexivity|]. rewrite !length_fmap.
  split; [reflexivity|]. split; [reflexivity|].
  intros i. now rewrite !list_lookup_fmap.
Qed.

End results.

(** ** The remover: what a worker leaves behind, and odd batch sizes *)

Section remover_runs.

Import remover.

Implicit Types (cfg : Flags) (w : World) (keys batch : list Key).

Lemma wrap64_range z : (- 2 ^ 63 <= wrap64 z < 2 ^ 63)%Z.
Proof.
  unfold wrap64. pose proof (Z.mod_pos_bound (z + 2 ^ 63) (2 ^ 64)). lia.
Qed.

Lemma wrap64_small z : (- 2 ^ 63 <= z < 2 ^ 63)%Z -> wrap64 z = z.
Proof. intros H. unfold wrap64. rewrite Z.mod_small; lia. Qed.

Lemma wrap64_add_l a b : wrap64 (wrap64 a + b) = wrap64 (a + b).
Proof.
  unfold wrap64. f_equal.
  replace ((a + 2 ^ 63) mod 2 ^ 64 - 2 ^ 63 + b + 2 ^ 63)%Z
    with ((a + 2 ^ 63) mod 2 ^ 64 + b)%Z by lia.
  rewrite Zplus_mod_idemp_l. f_equal. lia.
Qed.

(** A batch that is deleted leaves the index without its keys and adds its
    length to the counter. *)
Lemma deleteBatch_state cfg delete_fault keys w w' :
  deleteBatch cfg delete_fault keys w = Done w' ->
  index w' = filter (fun e => e.1 ∉ keys) (index w)
  /\ total w' = wrap64 (total w + Z.of_nat (length keys)).
Proof.
  unfold deleteBatch. destruct (delete_fault keys); [discriminate|].
  destruct (decide _); [discriminate|].
  intros H. injection H as <-. now split.
Qed.

Lemma filter_not_in_app (l : list (Key * string)) keys1 keys2 :
  filter (fun e => e.1 ∉ keys2) (filter (fun e => e.1 ∉ keys1) l)
  = filter (fun e => e.1 ∉ keys1 ++ keys2) l.
Proof.
  induction l as [|e l IH]; [reflexivity|].
  rewrite (filter_cons (fun e => e.1 ∉ keys1)),
          (filter_cons (fun e => e.1 ∉ keys1 ++ keys2)).
  destruct (decide (e.1 ∉ keys1)) as [H1|H1].
  - rewrite filter_cons. destruct (decide (e.1 ∉ keys2)) as [H2|H2].
    + rewrite decide_True by (rewrite elem_of_app; tauto). now rewrite IH.
    + rewrite decide_False by (rewrite elem_of_app; tauto). exact IH.
  - rewrite decide_False by (rewrite elem_of_app; tauto). exact IH.
Qed.

Lemma worker_loop_state cfg delete_fault keys batch w w' :
  (- 2 ^ 63 <= total w < 2 ^ 63)%Z ->
  worker_loop cfg delete_fault (inl <$> keys) batch w = Done w' ->
  index w' = filter (fun e => e.1 ∉ batch ++ keys) (index w)
  /\ total w' = wrap64 (total w + Z.of_nat (length (batch ++ keys))).
Proof.
  revert batch w. induction keys as [|key keys IH]; intros batch w Hrange.
  - cbn [fmap list_fmap worker_loop]. rewrite app_nil_r.
    destruct (decide (0 < length batch)) as [Hpos|Hzero].
    + apply deleteBatch_state.
    + intros H. injection H as <-. destruct batch; [|simpl in Hzero; lia].
      simpl. split.
      * induction (index w) as [|e l IHl]; [reflexivity|].
        rewrite filter_cons, decide_True by apply not_elem_of_nil.
        now rewrite <- IHl.
      * rewrite Z.add_0_r. now rewrite wrap64_small.
  - cbn [fmap list_fmap worker_loop]. cbv zeta.
    destruct (decide (batchSize cfg <= Z.of_nat (length (batch ++ [key])))%Z).
    + destruct (deleteBatch cfg delete_fault (batch ++ [key]) w) as [w1| |] eqn:Hdel;
        try discriminate.
      apply deleteBatch_state in Hdel as [Hidx Htot].
      intros H. apply (IH [] w1) in H; [|rewrite Htot; apply wrap64_range].
      destruct H as [Hidx' Htot']. simpl in Hidx', Htot'.
      rewrite Hidx', Hidx, filter_not_in_app, Htot', Htot, wrap64_add_l.
      rewrite <- app_assoc. simpl. split; [reflexivity|].
      f_equal. rewrite !length_app. simpl. lia.
    + intros H. apply (IH (batch ++ [key]) w Hrange) in H.
      now rewrite <- app_assoc in H.
Qed.

Lemma Run_scanned i w : Run i w = inl <$> scanned i w.
Proof. unfold Run, scanned. now rewrite <- list_fmap_compose. Qed.

Lemma worker_state cfg delete_fault i w w' :
  (- 2 ^ 63 <= total w < 2 ^ 63)%Z ->
  worker cfg delete_fault i w = Done w' ->
  index w' = filter (fun e => e.1 ∉ scanned i w) (index w)
  /\ total w' = wrap64 (total w + Z.of_nat (length (scanned i w))).
Proof.
  intros Hrange H. unfold worker in H. rewrite Run_scanned in H.
  apply worker_loop_state in H as [Hidx Htot]; [|assumption].
  simpl in Hidx, Htot. now split.
Qed.

(** X9.  A worker that runs to its end has removed from the index every
    entity whose key it scanned, and no other; the counter has grown by the
    number of keys scanned; nothing that the worker's filter selects is
    left. *)
Theorem worker_removes_scanned cfg delete_fault i w w' :
  (- 2 ^ 63 <= total w < 2 ^ 63)%Z ->
  worker cfg delete_fault i w = Done w' ->
  index w' = filter (fun e => e.1 ∉ scanned i w) (index w)
  /\ total w' = wrap64 (total w + Z.of_nat (length (scanned i w)))
  /\ (forall e, e ∈ index w' -> selects i e.2 = false).
Proof.
  intros Hrange H. destruct (worker_state _ _ _ _ _ Hrange H) as [Hidx Htot].
  split; [exact Hidx|]. split; [exact Htot|].
  intros e He. rewrite Hidx in He.
  apply list_elem_of_filter in He as [Hnot He].
  destruct (selects i e.2) eqn:Hsel; [|reflexivity].
  exfalso. apply Hnot. unfold scanned. apply list_elem_of_fmap.
  exists e. split; [reflexivity|]. now apply list_elem_of_filter.
Qed.

Lemma worker_removes_scanned_witness :
  (- 2 ^ 63 <= total sample_world < 2 ^ 63)%Z
  /\ worker default_flags no_delete_fault 1 sample_world
     = Done {| index := [(sample_key "a", "0abc")]; total := 4; logged := [];
               calls := [DeleteMulti [sample_key "b"; sample_key "c";
                                      sample_key "d"; sample_key "e"];
                         Sleep 500000000] |}
  /\ [(sample_key "a", "0abc")]
     = filter (fun e => e.1 ∉ scanned 1 sample_world) (index sample_world).
Proof.
  assert (H1 : (- 2 ^ 63 <= total sample_world < 2 ^ 63)%Z) by (simpl; lia).
  assert (H2 : worker default_flags no_delete_fault 1 sample_world
               = Done {| index := [(sample_key "a", "0abc")]; total := 4;
                         logged := [];
                         calls := [DeleteMulti [sample_key "b"; sample_key "c";
                                                sample_key "d"; sample_key "e"];
                                   Sleep 500000000] |})
    by (vm_compute; reflexivity).
  split; [exact H1|]. split; [exact H2|].
  exact (proj1 (worker_removes_scanned default_flags no_delete_fault 1
                  sample_world _ H1 H2)).
Defined.

(** X10.  An entity that worker 0 does not select (its [commit] is not greater
    than "0") is selected by no worker, and no worker's run removes it, as
    long as keys identify entities. *)
Theorem unselected_entities_survive cfg delete_fault i w w' e :
  NoDup (index w).*1 ->
  (- 2 ^ 63 <= total w < 2 ^ 63)%Z ->
  i ∈ workers ->
  e ∈ index w ->
  selects 0 e.2 = false ->
  worker cfg delete_fault i w = Done w' ->
  selects i e.2 = false /\ e ∈ index w'.
Proof.
  intros Hnodup Hrange Hi He Hsel H.
  assert (Hseli : selects i e.2 = false).
  { destruct (selects i e.2) eqn:Hs; [|reflexivity].
    assert (H0 : (0%Z : Z) ∈ workers) by (vm_compute; apply list_elem_of_here).
    assert (Hle : (0 <= i)%Z).
    { unfold workers in Hi. apply elem_of_seqZ in Hi. lia. }
    rewrite (ranges_nested 0 i e.2 H0 Hi Hle Hs) in Hsel. discriminate. }
  split; [exact Hseli|].
  apply worker_state in H as [Hidx _]; [|assumption].
  rewrite Hidx. apply list_elem_of_filter. split; [|exact He].
  intros Hin. unfold scanned in Hin.
  apply list_elem_of_fmap in Hin as (e' & Hkey & He').
  apply list_elem_of_filter in He' as [Hsel' He'].
  assert (e' = e).
  { apply list_elem_of_lookup in He as [n Hn], He' as [n' Hn'].
    assert (n' = n).
    { apply (NoDup_lookup _ _ _ e.1 Hnodup);
        rewrite list_lookup_fmap; [rewrite Hn', Hkey | rewrite Hn]; reflexivity. }
    subst n'. congruence. }
  subst e'. congruence.
Qed.

Lemma unselected_entities_survive_witness :
  NoDup (index sample_world0).*1
  /\ (- 2 ^ 63 <= total sample_world0 < 2 ^ 63)%Z
  /\ 0%Z ∈ workers
  /\ (sample_key "z", "0") ∈ index sample_world0
  /\ selects 0 (sample_key "z", "0").2 = false
  /\ worker default_flags no_delete_fault 0 sample_world0
     = Done {| index := [(sample_key "z", "0")]; total := 1; logged := [];
               calls := [DeleteMulti [sample_key "b"]; Sleep 500000000] |}
  /\ selects 0 (sample_key "z", "0").2 = false
  /\ (sample_key "z", "0") ∈ [(sample_key "z", "0")].
Proof.
  assert (H1 : NoDup (index sample_world0).*1).
  { simpl. constructor; [|constructor; [|constructor]].
    - intros H. apply list_elem_of_singleton in H. discriminate H.
    - apply not_elem_of_nil. }
  assert (H2 : (- 2 ^ 63 <= total sample_world0 < 2 ^ 63)%Z) by (simpl; lia).
  assert (H3 : 0%Z ∈ workers) by (vm_compute; apply list_elem_of_here).
  assert (H4 : (sample_key "z", "0") ∈ index sample_world0)
    by apply list_elem_of_here.
  assert (H5 : selects 0 (sample_key "z", "0").2 = false) by reflexivity.
  assert (H6 : worker default_flags no_delete_fault 0 sample_world0
               = Done {| index := [(sample_key "z", "0")]; total := 1;
                         logged := [];
                         calls := [DeleteMulti [sample_key "b"];
                                   Sleep 500000000] |})
    by (vm_compute; reflexivity).
  split; [exact H1|]. split; [exact H2|]. split; [exact H3|].
  split; [exact H4|]. split; [exact H5|]. split; [exact H6|].
  exact (unselected_entities_survive default_flags no_delete_fault 0
           sample_world0 _ (sample_key "z", "0") H1 H2 H3 H4 H5 H6).
Defined.

Lemma divisor_nonzero_wide cfg :
  (- 2 ^ 63 < batchSize cfg < 2 ^ 63)%Z -> batchSize cfg <> 0%Z ->
  wrap64 (batchSize cfg * 10) <> 0%Z.
Proof.
  intros Hb Hnz H. unfold wrap64 in H.
  set (b := batchSize cfg) in *.
  pose proof (Z.div_mod (b * 10 + 2 ^ 63) (2 ^ 64) ltac:(lia)) as Hdm.
  set (q := ((b * 10 + 2 ^ 63) / 2 ^ 64)%Z) in *.
  assert (Hdiv : (2 ^ 63 | 5 * b)%Z) by (exists q; lia).
  apply Z.gauss in Hdiv; [|reflexivity].
  destruct Hdiv as [k Hk]. lia.
Qed.

(** X11.  With [-batch_size=0] a worker that scans at least one key panics, on the
    division by [batchSize*10] in [deleteBatch]; a worker that scans no key
    ends without a call. *)
Theorem worker_zero_batch_size cfg delete_fault i w :
  batchSize cfg = 0%Z ->
  (forall ks, delete_fault ks = None) ->
  (scanned i w = [] -> worker cfg delete_fault i w = Done w)
  /\ (scanned i w <> [] -> worker cfg delete_fault i w = Panicked).
Proof.
  intros Hzero Hdel. unfold worker. rewrite Run_scanned.
  destruct (scanned i w) as [|key keys].
  - split; [reflexivity | congruence].
  - split; [discriminate|]. intros _.
    cbn [fmap list_fmap worker_loop]. cbv zeta.
    rewrite decide_True by (rewrite Hzero; simpl; lia).
    unfold deleteBatch. rewrite Hdel, Hzero. reflexivity.
Qed.

Lemma worker_zero_batch_size_witness :
  batchSize {| batchSize := 0; waitTimeMS := 500 |} = 0%Z
  /\ (forall ks, no_delete_fault ks = None)
  /\ (scanned 0 sample_world = [] ->
      worker {| batchSize := 0; waitTimeMS := 500 |} no_delete_fault 0 sample_world
      = Done sample_world)
  /\ (scanned 0 sample_world <> [] ->
      worker {| batchSize := 0; waitTimeMS := 500 |} no_delete_fault 0 sample_world
      = Panicked).
Proof.
  assert (H1 : batchSize {| batchSize := 0; waitTimeMS := 500 |} = 0%Z)
    by reflexivity.
  assert (H2 : forall ks, no_delete_fault ks = None) by reflexivity.
  split; [exact H1|]. split; [exact H2|].
  exact (worker_zero_batch_size {| batchSize := 0; waitTimeMS := 500 |}
           no_delete_fault 0 sample_world H1 H2).
Defined.

Lemma worker_loop_singletons cfg delete_fault keys w :
  (- 2 ^ 63 < batchSize cfg <= 1)%Z -> batchSize cfg <> 0%Z ->
  (forall ks, delete_fault ks = None) ->
  exists w',
    worker_loop cfg delete_fault (inl <$> keys) [] w = Done w'
    /\ calls w' = calls w ++ batch_calls cfg ((fun key => [key]) <$> keys).
Proof.
  intros Hb Hnz Hdel.
  assert (Hdiv : wrap64 (batchSize cfg * 10) <> 0%Z)
    by (apply divisor_nonzero_wide; [lia | assumption]).
  revert w. induction keys as [|key keys IH]; intros w.
  - exists w. split; [reflexivity|]. simpl. now rewrite app_nil_r.
  - cbn [fmap list_fmap worker_loop]. cbv zeta.
    rewrite decide_True by (simpl; lia).
    destruct (deleteBatch_calls cfg delete_fault ([] ++ [key]) w (Hdel _) Hdiv)
      as (w1 & -> & Hcalls1).
    destruct (IH w1) as (w' & Hrun & Hcalls).
    exists w'. split; [exact Hrun|].
    rewrite Hcalls, Hcalls1. unfold batch_calls. rewrite bind_cons.
    now rewrite <- app_assoc.
Qed.

Lemma singleton_batch_calls cfg keys :
  batch_calls cfg ((fun key => [key]) <$> keys)
  = keys ≫= fun key : Key => [DeleteMulti [key]; Sleep (sleep_time cfg)].
Proof.
  unfold batch_calls. induction keys as [|key keys IH]; [reflexivity|].
  rewrite fmap_cons, !bind_cons. now rewrite IH.
Qed.

(** X12.  With a batch size of 1, or a negative one, every key a worker scans is
    deleted by a call of its own, each followed by the sleep. *)
Theorem worker_small_batch_size cfg delete_fault i w :
  (- 2 ^ 63 < batchSize cfg <= 1)%Z -> batchSize cfg <> 0%Z ->
  (forall ks, delete_fault ks = None) ->
  exists w',
    worker cfg delete_fault i w = Done w'
    /\ calls w'
       = calls w ++ (scanned i w ≫= fun key : Key =>
                       [DeleteMulti [key]; Sleep (sleep_time cfg)]).
Proof.
  intros Hb Hnz Hdel. unfold worker. rewrite Run_scanned.
  destruct (worker_loop_singletons cfg delete_fault (scanned i w) w Hb Hnz Hdel)
    as (w' & Hrun & Hcalls).
  exists w'. split; [exact Hrun|]. rewrite Hcalls. f_equal.
  apply singleton_batch_calls.
Qed.

Lemma worker_small_batch_size_witness :
  (- 2 ^ 63 < batchSize {| batchSize := -5; waitTimeMS := 20 |} <= 1)%Z
  /\ batchSize {| batchSize := -5; waitTimeMS := 20 |} <> 0%Z
  /\ (forall ks, no_delete_fault ks = None)
  /\ exists w',
       worker {| batchSize := -5; waitTimeMS := 20 |} no_delete_fault 5
         sample_world = Done w'
       /\ calls w'
          = calls sample_world
              ++ (scanned 5 sample_world ≫= fun key : Key =>
                    [DeleteMulti [key];
                     Sleep (sleep_time {| batchSize := -5; waitTimeMS := 20 |})]).
Proof.
  assert (H1 : (- 2 ^ 63 < batchSize {| batchSize := -5; waitTimeMS := 20 |}
                <= 1)%Z) by (simpl; lia).
  assert (H2 : batchSize {| batchSize := -5; waitTimeMS := 20 |} <> 0%Z)
    by discriminate.
  assert (H3 : forall ks, no_delete_fault ks = None) by reflexivity.
  split; [exact H1|]. split; [exact H2|]. split; [exact H3|].
  exact (worker_small_batch_size {| batchSize := -5; waitTimeMS := 20 |}
           no_delete_fault 5 sample_world H1 H2 H3).
Defined.

End remover_runs.

(** ** The scanner command *)

Section scanner_facts.

Import scanner.

Variable Query : Type.
Variable MakePURLRequest : string -> Query.
Variable show_query : Query -> string.
Variable BaseVulnerabilityURL : string.
Variable TrimSpace : string -> string.
Variable File : Type.

Implicit Types (Queries queries : list Query) (Results : list MinimalResponse).
Implicit Types (lines : list string) (providers : list (Provider File)).

Lemma printResults_urls_app vulns (urls : list string) :
  printResults_urls BaseVulnerabilityURL vulns urls
  = urls ++ ((fun vuln => BaseVulnerabilityURL +:+ ID vuln) <$> vulns).
Proof.
  revert urls. induction vulns as [|vuln vulns IH]; intros urls; simpl.
  - now rewrite app_nil_r.
  - rewrite IH. csimpl. now rewrite <- app_assoc.
Qed.

Lemma printResults_loop_lines Results i queries lines :
  i <= length Results ->
  printResults_loop show_query BaseVulnerabilityURL Results i queries lines
  = (lines ++ omap (report show_query BaseVulnerabilityURL)
                (zip queries (drop i Results)),
     if decide (i + length queries <= length Results) then Return tt else Panic).
Proof.
  revert i lines. induction queries as [|query queries IH]; intros i lines Hi.
  - simpl. rewrite app_nil_r.
    destruct (decide (i + 0 <= length Results)); [reflexivity | lia].
  - cbn [printResults_loop].
    destruct (Results !! i) as [result|] eqn:Hres.
    + pose proof (lookup_lt_Some _ _ _ Hres) as Hlt.
      rewrite (drop_S _ _ _ Hres). cbn [zip zip_with omap list_omap].
      change (report show_query BaseVulnerabilityURL (query, result))
        with (if decide (length (Vulns result) = 0) then None
              else Some (vulnerable_line show_query query
                           ((fun vuln => BaseVulnerabilityURL +:+ ID vuln)
                              <$> Vulns result))).
      assert (Hdec : (if decide (S i + length queries <= length Results)
                      then Return tt else Panic)
                     = (if decide (i + length (query :: queries) <= length Results)
                        then Return tt else Panic)).
      { destruct (decide (S i + length queries <= length Results)),
                 (decide (i + length (query :: queries) <= length Results));
          simpl in *; (reflexivity || lia). }
      destruct (decide (length (Vulns result) = 0)).
      * rewrite IH by lia. now rewrite Hdec.
      * cbv zeta. rewrite IH by lia. rewrite printResults_urls_app. simpl app at 2.
        rewrite <- app_assoc, Hdec. reflexivity.
    + apply lookup_ge_None in Hres.
      rewrite drop_ge by assumption. rewrite zip_with_nil_r. simpl.
      rewrite app_nil_r.
      destruct (decide (i + S (length queries) <= length Results));
        [lia | reflexivity].
Qed.

(** X13.  [printResults] logs, in the order of the queries, one line for each query
    that has a result with at least one vulnerability, and panics exactly
    when there are fewer results than queries (after the lines of the queries
    that do have a result). *)
Theorem printResults_report Queries Results :
  printResults show_query BaseVulnerabilityURL Queries Results
  = (omap (report show_query BaseVulnerabilityURL) (zip Queries Results),
     if decide (length Queries <= length Results) then Return tt else Panic).
Proof.
  unfold printResults. rewrite printResults_loop_lines by lia. reflexivity.
Qed.

(** X14.  When every provider answers [InvalidFormat], whatever the state of the
    file, [scanSbomFile] returns nil without a "Scanned" line: a file in no
    known format is reported as a success; the queries it had are kept, in
    front of whatever the providers emitted before giving up. *)
Theorem scanSbomFile_unrecognised providers file Queries path :
  Forall (fun provider =>
            forall f, exists e,
              (GetPackages provider f).2 = Some e /\ is_InvalidFormat e = true)
    providers ->
  exists extra,
    scanSbomFile MakePURLRequest providers (inr file) Queries path
    = (Queries ++ extra, ["Scanning file " +:+ path], None).
Proof.
  intros Hall. unfold scanSbomFile.
  generalize ["Scanning file " +:+ path]. revert file Queries.
  induction Hall as [|provider providers Hp _ IH]; intros file Queries lines.
  - exists []. simpl. now rewrite app_nil_r.
  - cbn [scanSbomFile_loop].
    destruct (Hp file) as (e & He & Hinv).
    destruct (GetPackages provider file) as [[file' ids] err]. simpl in He.
    subst err. rewrite Hinv.
    destruct (IH file' (Queries ++ ((fun id => MakePURLRequest (PURL id)) <$> ids))
                lines) as (extra & ->).
    exists (((fun id => MakePURLRequest (PURL id)) <$> ids) ++ extra).
    now rewrite <- app_assoc.
Qed.

(** X15.  A provider that never answers [InvalidFormat] ends the scan: the
    providers listed after it are not consulted. *)
Theorem scanSbomFile_stops providers provider later file Queries path :
  (forall f e, (GetPackages provider f).2 = Some e -> is_InvalidFormat e = false) ->
  scanSbomFile MakePURLRequest (providers ++ provider :: later) (inr file)
    Queries path
  = scanSbomFile MakePURLRequest (providers ++ [provider]) (inr file) Queries path.
Proof.
  intros Hp. unfold scanSbomFile.
  generalize ["Scanning file " +:+ path]. revert file Queries.
  induction providers as [|p providers IH]; intros file Queries lines.
  - cbn [app scanSbomFile_loop].
    pose proof (Hp file) as Hf.
    destruct (GetPackages provider file) as [[file' ids] [e|]]; [|reflexivity].
    simpl in Hf. now rewrite (Hf e eq_refl).
  - cbn [app scanSbomFile_loop].
    destruct (GetPackages p file) as [[file' ids] [e|]]; [|reflexivity].
    destruct (is_InvalidFormat e); [apply IH | reflexivity].
Qed.

Lemma append_assoc (a b c : string) : (a +:+ b) +:+ c = a +:+ (b +:+ c).
Proof.
  induction a as [|x a IH]; [reflexivity|].
  change (String x ((a +:+ b) +:+ c) = String x (a +:+ (b +:+ c))).
  now rewrite IH.
Qed.

(** A text without ['#'] is not cut. *)
Lemma Split_uncut (field s : string) :
  lacks "#" s -> strings.Split_from "###" 0 field s = [field +:+ s].
Proof.
  revert field. induction s as [|c s IH]; intros field Hs.
  - simpl. now rewrite append_empty_r.
  - destruct Hs as [Hc Hs]. cbn [strings.Split_from].
    assert (Hpre : String.prefix "###" (String c s) = false).
    { cbn [String.prefix]. destruct (ascii_dec "#" c); [congruence | reflexivity]. }
    rewrite Hpre, (IH _ Hs), append_assoc. reflexivity.
Qed.

(** A text is cut at the first ["###"] after a part without ['#']. *)
Lemma Split_first (field name rest : string) :
  lacks "#" name ->
  strings.Split_from "###" 0 field (name +:+ "###" +:+ rest)
  = (field +:+ name) :: strings.Split_from "###" 0 "" rest.
Proof.
  revert field. induction name as [|c name IH]; intros field Hn.
  - rewrite append_empty_r.
    change ("" +:+ "###" +:+ rest) with (String "#" (String "#" (String "#" rest))).
    destruct rest as [|r rest]; reflexivity.
  - destruct Hn as [Hc Hn].
    change (String c name +:+ "###" +:+ rest)
      with (String c (name +:+ "###" +:+ rest)).
    cbn [strings.Split_from].
    assert (Hpre : String.prefix "###" (String c (name +:+ "###" +:+ rest)) = false).
    { cbn [String.prefix]. destruct (ascii_dec "#" c); [congruence | reflexivity]. }
    rewrite Hpre, (IH _ Hn), append_assoc. reflexivity.
Qed.

Lemma Split_package (name version : string) :
  lacks "#" name -> lacks "#" version ->
  strings.Split (name +:+ "###" +:+ version) "###" = [name; version].
Proof.
  intros Hn Hv. unfold strings.Split.
  now rewrite (Split_first "" name version Hn), (Split_uncut "" version Hv).
Qed.

Lemma scanDebianDocker_lines_panic lines (acc1 acc2 : list string) :
  scanDebianDocker_lines TrimSpace lines acc1 = Panic ->
  scanDebianDocker_lines TrimSpace lines acc2 = Panic.
Proof.
  revert acc1 acc2. induction lines as [|line lines IH]; intros acc1 acc2.
  - discriminate.
  - cbn [scanDebianDocker_lines]. cbv zeta.
    destruct (decide (String.length (TrimSpace line) = 0)); [apply IH|].
    destruct (strings.Split (TrimSpace line) "###" !! 0); [|reflexivity].
    destruct (strings.Split (TrimSpace line) "###" !! 1); [apply IH | reflexivity].
Qed.

(** X16.  A line that is not blank and has no ['#'] in it makes [scanDebianDocker]
    panic, wherever it stands in the output. *)
Theorem scanDebianDocker_panics lines line Queries :
  line ∈ lines ->
  TrimSpace line <> "" ->
  lacks "#" (TrimSpace line) ->
  scanDebianDocker MakePURLRequest TrimSpace None None lines Queries = Panics.
Proof.
  intros Hin Hne Hlacks. unfold scanDebianDocker.
  assert (H : scanDebianDocker_lines TrimSpace lines [] = Panic);
    [|now rewrite H].
  generalize (@nil string).
  induction lines as [|l lines IH]; intros acc; [now apply elem_of_nil in Hin|].
  cbn [scanDebianDocker_lines]. cbv zeta.
  apply elem_of_cons in Hin as [<-|Hin].
  - rewrite decide_False by (destruct (TrimSpace line); [congruence | discriminate]).
    unfold strings.Split. rewrite (Split_uncut "" _ Hlacks). reflexivity.
  - destruct (decide (String.length (TrimSpace l) = 0)); [now apply IH|].
    destruct (strings.Split (TrimSpace l) "###" !! 0); [|reflexivity].
    destruct (strings.Split (TrimSpace l) "###" !! 1); [now apply IH | reflexivity].
Qed.

Lemma scanDebianDocker_lines_packages lines
    (packages : list (option (string * string))) (acc : list string) :
  Forall2 (fun line package =>
             match package with
             | None => TrimSpace line = ""
             | Some (name, version) =>
                 TrimSpace line = name +:+ "###" +:+ version
                 /\ lacks "#" name /\ lacks "#" version
             end) lines packages ->
  scanDebianDocker_lines TrimSpace lines acc
  = Return (acc ++ omap (fun package =>
                           match package with
                           | None => None
                           | Some (name, version) =>
                               Some ("pkg:deb/debian/" +:+ name +:+ "@" +:+ version)
                           end) packages).
Proof.
  intros H. revert acc.
  induction H as [|line package lines packages Hline _ IH]; intros acc.
  - simpl. now rewrite app_nil_r.
  - cbn [scanDebianDocker_lines omap list_omap]. cbv zeta.
    destruct package as [[name version]|].
    + destruct Hline as (Htext & Hn & Hv). rewrite Htext.
      rewrite decide_False.
      2:{ rewrite append_length. simpl. lia. }
      rewrite (Split_package name version Hn Hv). cbn [lookup list_lookup].
      rewrite IH, <- app_assoc. reflexivity.
    + rewrite Hline. rewrite decide_True by reflexivity. apply IH.
Qed.

(** X17.  When every line of the output is blank or reads [name###version], with
    no ['#'] in name and version, [scanDebianDocker] appends to the queries,
    in order, one query for [pkg:deb/debian/name@version] per line that is not
    blank. *)
Theorem scanDebianDocker_packages lines
    (packages : list (option (string * string))) Queries :
  Forall2 (fun line package =>
             match package with
             | None => TrimSpace line = ""
             | Some (name, version) =>
                 TrimSpace line = name +:+ "###" +:+ version
                 /\ lacks "#" name /\ lacks "#" version
             end) lines packages ->
  scanDebianDocker MakePURLRequest TrimSpace None None lines Queries
  = Returns (Queries
             ++ (MakePURLRequest
                   <$> omap (fun package =>
                               match package with
                               | None => None
                               | Some (name, version) =>
                                   Some ("pkg:deb/debian/" +:+ name +:+ "@"
                                           +:+ version)
                               end) packages)).
Proof.
  intros H. unfold scanDebianDocker.
  now rewrite (scanDebianDocker_lines_packages lines packages [] H).
Qed.

End scanner_facts.

Lemma scanSbomFile_unrecognised_witness :
  Forall (fun provider : scanner.Provider unit =>
            forall f, exists e,
              (scanner.GetPackages provider f).2 = Some e
              /\ scanner.is_InvalidFormat e = true)
    [scanner.sample_provider "SPDX" ["pkg:a"] (Some scanner.InvalidFormat);
     scanner.sample_provider "CycloneDX" [] (Some scanner.InvalidFormat)]
  /\ exists extra,
       scanner.scanSbomFile (fun purl : string => purl)
         [scanner.sample_provider "SPDX" ["pkg:a"] (Some scanner.InvalidFormat);
          scanner.sample_provider "CycloneDX" [] (Some scanner.InvalidFormat)]
         (inr tt) ["pkg:old"] "sbom.json"
       = (["pkg:old"] ++ extra, ["Scanning file " +:+ "sbom.json"], None).
Proof.
  assert (H : Forall (fun provider : scanner.Provider unit =>
                        forall f, exists e,
                          (scanner.GetPackages provider f).2 = Some e
                          /\ scanner.is_InvalidFormat e = true)
                [scanner.sample_provider "SPDX" ["pkg:a"]
                   (Some scanner.InvalidFormat);
                 scanner.sample_provider "CycloneDX" []
                   (Some scanner.InvalidFormat)]).
  { repeat constructor; intros f; exists scanner.InvalidFormat; split; reflexivity. }
  split; [exact H|].
  exact (scanSbomFile_unrecognised string (fun purl => purl) unit _ tt
           ["pkg:old"] "sbom.json" H).
Defined.

Lemma scanSbomFile_stops_witness :
  (forall f e,
     (scanner.GetPackages (scanner.sample_provider "CycloneDX" ["pkg:b"] None) f).2
     = Some e -> scanner.is_InvalidFormat e = false)
  /\ scanner.scanSbomFile (fun purl : string => purl)
       ([scanner.sample_provider "SPDX" [] (Some scanner.InvalidFormat)]
          ++ scanner.sample_provider "CycloneDX" ["pkg:b"] None
          :: [scanner.sample_provider "Other" ["pkg:c"] None])
       (inr tt) [] "sbom.json"
     = scanner.scanSbomFile (fun purl : string => purl)
         ([scanner.sample_provider "SPDX" [] (Some scanner.InvalidFormat)]
            ++ [scanner.sample_provider "CycloneDX" ["pkg:b"] None])
         (inr tt) [] "sbom.json".
Proof.
  assert (H : forall f e,
            (scanner.GetPackages
               (scanner.sample_provider "CycloneDX" ["pkg:b"] None) f).2
            = Some e -> scanner.is_InvalidFormat e = false)
    by (intros f e He; discriminate He).
  split; [exact H|].
  exact (scanSbomFile_stops string (fun purl => purl) unit _ _ _ tt [] "sbom.json" H).
Defined.

Lemma scanDebianDocker_panics_witness :
  "oops" ∈ ["zlib1g###1:1.2.13"; "oops"]
  /\ "oops" <> ""
  /\ lacks "#" "oops"
  /\ scanner.scanDebianDocker (fun purl : string => purl) (fun text => text)
       None None ["zlib1g###1:1.2.13"; "oops"] [] = scanner.Panics.
Proof.
  assert (H1 : "oops" ∈ ["zlib1g###1:1.2.13"; "oops"])
    by apply list_elem_of_further, list_elem_of_here.
  assert (H2 : "oops" <> "") by discriminate.
  assert (H3 : lacks "#" "oops") by (simpl; repeat split; discriminate).
  split; [exact H1|]. split; [exact H2|]. split; [exact H3|].
  exact (scanDebianDocker_panics string (fun purl => purl) (fun text => text)
           _ "oops" [] H1 H2 H3).
Defined.

Lemma scanDebianDocker_packages_witness :
  Forall2 (fun line package =>
             match package with
             | None => line = ""
             | Some (name, version) =>
                 line = name +:+ "###" +:+ version
                 /\ lacks "#" name /\ lacks "#" version
             end)
    [""; "zlib1g###1:1.2.13"] [None; Some ("zlib1g", "1:1.2.13")]
  /\ scanner.scanDebianDocker (fun purl : string => purl) (fun text => text)
       None None [""; "zlib1g###1:1.2.13"] ["pkg:old"]
     = scanner.Returns ["pkg:old"; "pkg:deb/debian/zlib1g@1:1.2.13"].
Proof.
  assert (H : Forall2 (fun line package =>
                         match package with
                         | None => line = ""
                         | Some (name, version) =>
                             line = name +:+ "###" +:+ version
                             /\ lacks "#" name /\ lacks "#" version
                         end)
                [""; "zlib1g###1:1.2.13"] [None; Some ("zlib1g", "1:1.2.13")]).
  { constructor; [reflexivity|]. constructor; [|constructor].
    split; [reflexivity|]. split; simpl; repeat split; discriminate. }
  split; [exact H|].
  exact (scanDebianDocker_packages string (fun purl => purl) (fun text => text)
           _ _ ["pkg:old"] H).
Defined.

(** ** Answers served from the session, and groups that share a hash *)

Section sessions_and_collisions.

Implicit Types (env : Faults) (s : Store) (hashType : string).

Lemma Exists_true_is_cached_witness :
  Store_Exists no_faults examples.indexed_store (preparation.Addr examples.repo)
    "md5" (preparation.Commit examples.repo)
  = (examples.cached_store, (true, None))
  /\ Store_Exists no_faults examples.cached_store (preparation.Addr examples.repo)
       "md5" (preparation.Commit examples.repo)
     = (examples.cached_store, (true, None)).
Proof.
  assert (H : Store_Exists no_faults examples.indexed_store
                (preparation.Addr examples.repo) "md5"
                (preparation.Commit examples.repo)
              = (examples.cached_store, (true, None))) by reflexivity.
  split; [exact H|].
  exact (Exists_true_is_cached no_faults no_faults examples.indexed_store
           examples.cached_store (preparation.Addr examples.repo) "md5"
           (preparation.Commit examples.repo) H).
Defined.

Lemma last_write_app (k : Key) (l1 l2 : list (Key * entity)) :
  last_write k (l1 ++ l2)
  = match last_write k l2 with
    | Some e => Some e
    | None => last_write k l1
    end.
Proof.
  induction l2 as [|kv l2 IH] using rev_ind.
  - now rewrite app_nil_r.
  - rewrite app_assoc, !last_write_snoc.
    destruct (decide (kv.1 = k)); [reflexivity | exact IH].
Qed.

Lemma last_write_middle (k : Key) (e : entity) (pre post : list (Key * entity)) :
  k ∉ post.*1 -> last_write k (pre ++ (k, e) :: post) = Some e.
Proof.
  intros Hpost. apply last_write_None in Hpost.
  change (pre ++ (k, e) :: post) with (pre ++ [(k, e)] ++ post).
  rewrite app_assoc, last_write_app, Hpost, last_write_snoc.
  now rewrite decide_True.
Qed.

(** X18.  When several results of a call have one bucket hash, they are written
    under one key, and the record the store holds afterwards is that of the
    last of them. *)
Theorem Store_same_hash_last_wins env s repoInfo hashType bucketResults
    treeNodes s' baseTreeLayer doc (earlier later : list result) r :
  Store_Store env s repoInfo hashType bucketResults treeNodes = Return (s', None) ->
  treeNodes !! 0 = Some baseTreeLayer ->
  newDoc repoInfo hashType bucketResults baseTreeLayer
  = Return (doc, earlier ++ r :: later) ->
  Forall (fun r' => BucketHash r' <> BucketHash r) later ->
  entities (dsCl s') !! resultKey (Store_docKey repoInfo hashType) hashType r
  = Some (EResult r).
Proof.
  intros H Hbase Hdoc Hlater.
  apply Store_committed in H as (base & Hbase' & Hle & ->).
  rewrite Hbase in Hbase'. injection Hbase' as <-.
  rewrite newDoc_cases, decide_True in Hdoc by assumption.
  injection Hdoc as _ Hres.
  rewrite entities_committed, lookup_apply_mutations. rewrite Hres.
  set (docKey := Store_docKey repoInfo hashType).
  set (k := resultKey docKey hashType r).
  assert (Hsplit :
    Store_records docKey (repo_document repoInfo hashType) hashType
      (earlier ++ r :: later) treeNodes
    = ((docKey, EDoc (repo_document repoInfo hashType))
         :: result_records docKey hashType earlier)
        ++ (k, EResult r)
        :: (result_records docKey hashType later
              ++ layer_records docKey hashType treeNodes)).
  { unfold Store_records, result_records. rewrite fmap_app, fmap_cons.
    rewrite <- app_assoc. reflexivity. }
  rewrite Hsplit, last_write_middle; [reflexivity|].
  intros Hin. apply list_elem_of_fmap in Hin as ([k' e] & Hk & Hin).
  simpl in Hk. subst k'. apply elem_of_app in Hin as [Hin|Hin].
  - apply list_elem_of_fmap in Hin as (r' & Heq & Hr').
    apply (f_equal fst) in Heq. simpl in Heq.
    apply resultKey_eq_inv in Heq.
    rewrite Forall_forall in Hlater. now apply (Hlater r' Hr').
  - apply elem_of_layer_records in Hin as (_ & node & _ & _ & _ & Heq & _).
    unfold k, resultKey, treeKey in Heq. discriminate Heq.
Qed.

Lemma Store_same_hash_last_wins_witness :
  Store_Store no_faults examples.empty_store examples.repo "md5"
    [[examples.file1]; []] [[examples.node1; examples.node1]]
  = Return (examples.stored_same_hash, None)
  /\ [[examples.node1; examples.node1]] !! 0
     = Some [examples.node1; examples.node1]
  /\ newDoc examples.repo "md5" [[examples.file1]; []]
       [examples.node1; examples.node1]
     = Return (repo_document examples.repo "md5",
               [newResult [examples.file1] [Byte.x01]]
                 ++ newResult [] [Byte.x01] :: [])
  /\ Forall (fun r' => BucketHash r' <> BucketHash (newResult [] [Byte.x01])) []
  /\ entities (dsCl examples.stored_same_hash)
       !! resultKey (Store_docKey examples.repo "md5") "md5"
            (newResult [] [Byte.x01])
     = Some (EResult (newResult [] [Byte.x01])).
Proof.
  assert (H1 : Store_Store no_faults examples.empty_store examples.repo "md5"
                 [[examples.file1]; []] [[examples.node1; examples.node1]]
               = Return (examples.stored_same_hash, None)) by reflexivity.
  assert (H2 : [[examples.node1; examples.node1]] !! 0
               = Some [examples.node1; examples.node1]) by reflexivity.
  assert (H3 : newDoc examples.repo "md5" [[examples.file1]; []]
                 [examples.node1; examples.node1]
               = Return (repo_document examples.repo "md5",
                         [newResult [examples.file1] [Byte.x01]]
                           ++ newResult [] [Byte.x01] :: [])) by reflexivity.
  assert (H4 : Forall (fun r' => BucketHash r'
                                 <> BucketHash (newResult [] [Byte.x01])) [])
    by constructor.
  split; [exact H1|]. split; [exact H2|]. split; [exact H3|]. split; [exact H4|].
  exact (Store_same_hash_last_wins no_faults examples.empty_store examples.repo
           "md5" [[examples.file1]; []] [[examples.node1; examples.node1]]
           examples.stored_same_hash [examples.node1; examples.node1]
           (repo_document examples.repo "md5")
           [newResult [examples.file1] [Byte.x01]] []
           (newResult [] [Byte.x01]) H1 H2 H3 H4).
Defined.

(** C7, on the code.  The key [Exists] looks up is not the document key of
    the triple, the one [Store] writes: with the document of the triple in
    the store, so that a lookup of its key reports no error, [Exists] answers
    (false, nil); and with nothing under the triple's key, so that a lookup of
    it reports [ErrNoSuchEntity], [Exists] answers (true, nil) when an entity
    sits under the name it builds. *)
Theorem Exists_misses_the_document_key :
  Store_Store no_faults examples.empty_store examples.repo "md5"
    [[examples.file1]] [[examples.node1]] = Return (examples.stored1, None)
  /\ entities (dsCl examples.stored1) !! Store_docKey examples.repo "md5"
     = Some (EDoc (repo_document examples.repo "md5"))
  /\ (Get no_faults (Store_docKey examples.repo "md5")
        (dsCl examples.stored1)).2 = None
  /\ (Store_Exists no_faults examples.stored1 (preparation.Addr examples.repo)
        "md5" (preparation.Commit examples.repo)).2 = (false, None)
  /\ (Get no_faults (Store_docKey examples.repo "md5")
        (dsCl examples.indexed_store)).2 = Some ErrNoSuchEntity
  /\ (Store_Exists no_faults examples.indexed_store
        (preparation.Addr examples.repo) "md5"
        (preparation.Commit examples.repo)).2 = (true, None).
Proof.
  split; [reflexivity|].
  split; [vm_compute; reflexivity|]. split; [vm_compute; reflexivity|].
  split; [vm_compute; reflexivity|]. split; vm_compute; reflexivity.
Qed.

End sessions_and_collisions.
